(** * VantaVault: the service worker's cache router, janitor and sync,
      the gallery's upload queue, the PIN pad and the theme

    A shallow embedding of [static/js/service-worker.js], of the upload
    queue and tile labels of [GalleryManager], of the typing of
    [PinLock] and of the theme of [VantaVaultApp].  Promise chains of the
    worker become computations in a reader/state/rejection monad: the
    reader part is the host environment the worker only consults
    (network, clock, date parsing), the state part is what it changes
    (cache storage, console, posted messages, detached continuations). *)

From Stdlib Require Import ZArith Ascii.
From stdpp Require Import base list strings gmap pretty.

Local Open Scope Z_scope.

(** ** Strings as the code uses them *)

(** [s.startsWith(p)] *)
Definition startsWith (s p : string) : bool := String.prefix p s.

(** The double quote character, for the JSON text and the inline HTML. *)
Definition dq : string := String (ascii_of_nat 34) EmptyString.

(** A JSON string literal whose content needs no escaping. *)
Definition quoted (s : string) : string := dq +:+ s +:+ dq.

Definition lower_ascii (c : ascii) : ascii :=
  let n := nat_of_ascii c in
  if ((65 <=? n) && (n <=? 90))%nat then ascii_of_nat (n + 32) else c.

Fixpoint lowercase (s : string) : string :=
  match s with
  | EmptyString => EmptyString
  | String c s' => String (lower_ascii c) (lowercase s')
  end.

(** [Array.prototype.includes] on an array of strings. *)
Definition includes (l : list string) (s : string) : bool :=
  existsb (String.eqb s) l.

Module ServiceWorker.

(** ** Constants of the worker *)

Definition CACHE_NAME : string := "vantavault-v2.0".
Definition STATIC_CACHE : string := "vantavault-static-v2.0".
Definition DYNAMIC_CACHE : string := "vantavault-dynamic-v2.0".
Definition MEDIA_CACHE : string := "vantavault-media-v2.0".

Definition STATIC_ASSETS : list string :=
  [ "/";
    "/static/css/main.css";
    "/static/css/animations.css";
    "/static/css/gallery.css";
    "/static/js/app.js";
    "/static/js/auth.js";
    "/static/js/gallery.js";
    "/manifest.json";
    "/offline";
    "/static/icons/icon-192.svg";
    "/static/icons/icon-512.svg" ].

(** ** Requests, responses, messages *)

(** [pathname] is what [new URL(request.url).pathname] yields; the cache
    key of a request is its [url]. *)
Record Request := mkRequest {
  method : string;
  url : string;
  pathname : string;
  mode : string;
  destination : string }.

Record Response := mkResponse {
  status : Z;
  headers : list (string * string);
  body : string }.

(** [response.headers.get(name)]: header names compare case-insensitively,
    the values of a repeated header are joined with a comma and a space;
    [None] is JavaScript's [null]. *)
Definition header_values (name : string) (hs : list (string * string))
  : list string :=
  map snd
    (List.filter (fun kv => String.eqb (lowercase (fst kv)) (lowercase name)) hs).

Definition headers_get (name : string) (hs : list (string * string))
  : option string :=
  match header_values name hs with
  | [] => None
  | v :: vs => Some (foldl (fun acc x => acc +:+ ", " +:+ x) v vs)
  end.

Record Message := mkMessage {
  msg_type : string;
  msg_data : list (string * string) }.

(** A queued upload and a queued setting change, with the fields the
    worker reads. *)
Record PendingUpload := mkUpload {
  upload_id : string }.

Record SettingChange := mkChange {
  change_id : string;
  change_key : string }.

(** ** Promises *)

(** A settled promise: fulfilled with a value or rejected with the
    error's message. *)
Inductive Result (A : Type) : Type :=
| Fulfilled (a : A)
| Rejected (e : string).
Arguments Fulfilled {A} a.
Arguments Rejected {A} e.

Definition is_fulfilled {A} (r : Result A) : bool :=
  match r with Fulfilled _ => true | Rejected _ => false end.

(** ** The host *)

(** What the worker only reads during one event. *)
Record Env := mkEnv {
  origin : string;                          (* self.location.origin *)
  network : Request -> Result Response;     (* how fetch(request) settles *)
  clock : Z;                                (* Date.now(), milliseconds *)
  Date_parse : string -> option Z;          (* new Date(s).getTime(); None is NaN *)
  toISOString : Z -> string }.              (* new Date(ms).toISOString() *)

(** Observable effects, in the order they happen. *)
Inductive Event :=
| EvFetch (r : Request)
| EvCacheRead (key : string)
| EvCacheWrite (cache key : string)
| EvCacheDelete (cache key : string)
| EvStorageDelete (cache : string)
| EvLog (line : string)
| EvError (line detail : string)
| EvPostMessage (client : string) (m : Message)
| EvSkipWaiting
| EvClientsClaim.

(** Continuations the code starts and does not wait for. *)
Inductive Task :=
| TaskCachePut (cache key : string) (r : Response)
    (* caches.open(cache).then(c => { c.put(key, r); }) *)
| TaskFetchAndCache (req : Request)
    (* the .then of an un-awaited fetchAndCache(req) *)
| TaskPostMessage (m : Message).
    (* clients.matchAll().then(cs => cs.forEach(c => c.postMessage(m))) *)

(** One named cache: request key to response. *)
Abbreviation Cache := (gmap string Response).

(** What the worker changes.  [caches] is the CacheStorage in creation
    order, the order in which [caches.match] searches it. *)
Record World := mkWorld {
  caches : list (string * Cache);
  trace : list Event;
  pending : list Task;
  clients : list string }.

Definition set_caches (cs : list (string * Cache)) (w : World) : World :=
  mkWorld cs (trace w) (pending w) (clients w).
Definition set_trace (t : list Event) (w : World) : World :=
  mkWorld (caches w) t (pending w) (clients w).
Definition set_pending (p : list Task) (w : World) : World :=
  mkWorld (caches w) (trace w) p (clients w).

(** ** The promise monad *)

Definition M (A : Type) : Type := Env -> World -> Result A * World.

Definition resolve {A} (a : A) : M A := fun _ w => (Fulfilled a, w).
Definition reject {A} (e : string) : M A := fun _ w => (Rejected e, w).

(** [p.then(f)] *)
Definition then_ {A B} (p : M A) (f : A -> M B) : M B :=
  fun env w =>
    match p env w with
    | (Fulfilled a, w') => f a env w'
    | (Rejected e, w') => (Rejected e, w')
    end.

(** [p.catch(h)] *)
Definition catch_ {A} (p : M A) (h : string -> M A) : M A :=
  fun env w =>
    match p env w with
    | (Fulfilled a, w') => (Fulfilled a, w')
    | (Rejected e, w') => h e env w'
    end.

Notation "'let*' x ':=' p 'in' k" := (then_ p (fun x => k))
  (at level 10, x name, p at level 100, k at level 200).
Notation "p ';;' k" := (then_ p (fun _ => k))
  (at level 100, k at level 200, right associativity).

Definition ask : M Env := fun env w => (Fulfilled env, w).
Definition get : M World := fun _ w => (Fulfilled w, w).
Definition modify (f : World -> World) : M unit :=
  fun _ w => (Fulfilled tt, f w).

Definition emit (e : Event) : M unit :=
  modify (fun w => set_trace (trace w ++ [e]) w).
Definition console_log (line : string) : M unit := emit (EvLog line).
Definition console_error (line detail : string) : M unit :=
  emit (EvError line detail).

(** Start a continuation nobody awaits. *)
Definition detach (t : Task) : M unit :=
  modify (fun w => set_pending (pending w ++ [t]) w).

(** [for (const x of xs) { await body(x) }] *)
Fixpoint for_of {A} (xs : list A) (body : A -> M unit) : M unit :=
  match xs with
  | [] => resolve tt
  | x :: xs' => body x ;; for_of xs' body
  end.

(** ** The host's cache storage *)

Fixpoint storage_lookup (name : string) (cs : list (string * Cache))
  : option Cache :=
  match cs with
  | [] => None
  | (n, c) :: cs' =>
      if String.eqb n name then Some c else storage_lookup name cs'
  end.

(** [caches.open(name)] creates the cache when there is none. *)
Definition storage_open (name : string) (cs : list (string * Cache))
  : list (string * Cache) :=
  match storage_lookup name cs with
  | Some _ => cs
  | None => cs ++ [(name, ∅)]
  end.

Fixpoint storage_update (name : string) (f : Cache -> Cache)
  (cs : list (string * Cache)) : list (string * Cache) :=
  match cs with
  | [] => []
  | (n, c) :: cs' =>
      if String.eqb n name then (n, f c) :: cs'
      else (n, c) :: storage_update name f cs'
  end.

(** [caches.delete(name)] *)
Definition storage_delete (name : string) (cs : list (string * Cache))
  : list (string * Cache) :=
  List.filter (fun p => negb (String.eqb (fst p) name)) cs.

(** [caches.match(key)]: the first cache, in creation order, that holds
    the key; [None] is [undefined]. *)
Fixpoint storage_match (key : string) (cs : list (string * Cache))
  : option Response :=
  match cs with
  | [] => None
  | (_, c) :: cs' =>
      match c !! key with
      | Some r => Some r
      | None => storage_match key cs'
      end
  end.

(** The entry of one named cache. *)
Definition entry (name key : string) (w : World) : option Response :=
  match storage_lookup name (caches w) with
  | Some c => c !! key
  | None => None
  end.

Definition caches_open (name : string) : M unit :=
  modify (fun w => set_caches (storage_open name (caches w)) w).

Definition caches_keys : M (list string) :=
  let* w := get in resolve (map fst (caches w)).

Definition caches_delete (name : string) : M unit :=
  emit (EvStorageDelete name) ;;
  modify (fun w => set_caches (storage_delete name (caches w)) w).

Definition caches_match (key : string) : M (option Response) :=
  emit (EvCacheRead key) ;;
  let* w := get in resolve (storage_match key (caches w)).

(** Operations on the cache object that [caches.open(name)] gave. *)
Definition cache_put (name key : string) (r : Response) : M unit :=
  emit (EvCacheWrite name key) ;;
  modify (fun w => set_caches (storage_update name (insert key r) (caches w)) w).

Definition cache_keys (name : string) : M (list string) :=
  let* w := get in
  resolve (match storage_lookup name (caches w) with
           | Some c => map fst (map_to_list c)
           | None => []
           end).

Definition cache_match (name key : string) : M (option Response) :=
  emit (EvCacheRead key) ;;
  let* w := get in resolve (entry name key w).

Definition cache_delete (name key : string) : M unit :=
  emit (EvCacheDelete name key) ;;
  modify (fun w => set_caches (storage_update name (delete key) (caches w)) w).

(** ** The network *)

Definition fetch_start (req : Request) : M unit := emit (EvFetch req).
Definition fetch_settle (req : Request) : M Response :=
  fun env w => (network env req, w).

(** [fetch(request)] *)
Definition fetch (req : Request) : M Response :=
  fetch_start req ;; fetch_settle req.

(** The request that a path of the worker's own origin stands for. *)
Definition asset_request (env : Env) (path : string) : Request :=
  mkRequest "GET" (origin env +:+ path) path "cors" "".

(** [response.ok] *)
Definition ok (r : Response) : bool := (200 <=? status r) && (status r <=? 299).

Fixpoint settle_all (paths : list string) : M (list (string * Response)) :=
  match paths with
  | [] => resolve []
  | p :: ps =>
      let* env := ask in
      let* r := fetch_settle (asset_request env p) in
      if ok r then
        let* rs := settle_all ps in
        resolve ((origin env +:+ p, r) :: rs)
      else reject "TypeError: Request failed"
  end.

(** [cache.addAll(paths)]: every fetch is started, then they settle;
    unless every one settles with an ok response the promise rejects and
    nothing is stored. *)
Definition cache_addAll (name : string) (paths : list string) : M unit :=
  let* env := ask in
  for_of paths (fun p => fetch_start (asset_request env p)) ;;
  let* rs := settle_all paths in
  for_of rs (fun kr => cache_put name (fst kr) (snd kr)).

(** The fetch of one manifest path fails: it rejects, or its response is
    not ok. *)
Definition asset_fails (env : Env) (path : string) : bool :=
  match network env (asset_request env path) with
  | Fulfilled r => negb (ok r)
  | Rejected _ => true
  end.

Definition skipWaiting : M unit := emit EvSkipWaiting.
Definition clients_claim : M unit := emit EvClientsClaim.

(** ** Running what was detached *)

(** [fetchAndCache]'s [.then] callback. *)
Definition fetchAndCache_then (request : Request) (response : Response)
  : M Response :=
  if negb (status response =? 200) then resolve response
  else
    detach (TaskCachePut DYNAMIC_CACHE (url request) response) ;;
    resolve response.

(** [fetchAndCache(request)] *)
Definition fetchAndCache (request : Request) : M Response :=
  let* response := fetch request in fetchAndCache_then request response.

(** [fetchAndCache(request);] as a statement: the fetch starts now, the
    rest runs later and its outcome is dropped. *)
Definition fetchAndCache_unawaited (request : Request) : M unit :=
  fetch_start request ;; detach (TaskFetchAndCache request).

(** [sendMessageToClient(message)] *)
Definition sendMessageToClient (message : Message) : M unit :=
  detach (TaskPostMessage message).

Definition run_task (t : Task) : M unit :=
  match t with
  | TaskCachePut name key r => caches_open name ;; cache_put name key r
  | TaskFetchAndCache request =>
      (let* response := fetch_settle request in
       fetchAndCache_then request response) ;;
      resolve tt
  | TaskPostMessage m =>
      let* w := get in
      for_of (clients w) (fun c => emit (EvPostMessage c m))
  end.

(** One turn of the host's event loop: every continuation that was
    pending runs, oldest first; what they detach waits for the next
    turn. *)
Definition tick (env : Env) (w : World) : World :=
  foldl (fun w' t => snd (run_task t env w')) (set_pending [] w) (pending w).

(** ** Install *)

(** The promise the first install listener hands to [event.waitUntil]. *)
Definition on_install : M unit :=
  console_log "[Service Worker] Installing VantaVault v2.0..." ;;
  catch_
    (caches_open STATIC_CACHE ;;
     console_log "[Service Worker] Caching static assets" ;;
     cache_addAll STATIC_CACHE STATIC_ASSETS ;;
     console_log "[Service Worker] All static assets cached" ;;
     skipWaiting)
    (fun error =>
       console_error "[Service Worker] Cache installation failed:" error).

(** The page served when a navigation fails offline. *)
Definition OFFLINE_HTML : string :=
  "
<!DOCTYPE html>
<html lang=" +:+ dq +:+
  "en" +:+ dq +:+
  " data-theme=" +:+ dq +:+
  "dark" +:+ dq +:+
  ">
<head>
    <meta charset=" +:+ dq +:+
  "UTF-8" +:+ dq +:+
  ">
    <meta name=" +:+ dq +:+
  "viewport" +:+ dq +:+
  " content=" +:+ dq +:+
  "width=device-width, initial-scale=1.0" +:+ dq +:+
  ">
    <title>VantaVault - Offline</title>
    <style>
        * {
            margin: 0;
            padding: 0;
            box-sizing: border-box;
        }
        
        body {
            font-family: -apple-system, BlinkMacSystemFont, 'Segoe UI', Roboto, sans-serif;
            background: #000;
            color: #fff;
            height: 100vh;
            display: flex;
            justify-content: center;
            align-items: center;
            text-align: center;
            padding: 20px;
        }
        
        .container {
            max-width: 400px;
        }
        
        .icon {
            font-size: 4rem;
            margin-bottom: 1.5rem;
            animation: pulse 2s infinite;
        }
        
        h1 {
            font-size: 2.5rem;
            margin-bottom: 1rem;
            background: linear-gradient(135deg, #fff, #aaa);
            -webkit-background-clip: text;
            -webkit-text-fill-color: transparent;
        }
        
        p {
            color: #aaa;
            margin-bottom: 2rem;
            line-height: 1.6;
        }
        
        .actions {
            display: flex;
            gap: 1rem;
            justify-content: center;
        }
        
        button {
            background: rgba(255, 255, 255, 0.1);
            border: 1px solid rgba(255, 255, 255, 0.2);
            color: white;
            padding: 0.75rem 1.5rem;
            border-radius: 12px;
            cursor: pointer;
            transition: all 0.3s ease;
            font-size: 1rem;
        }
        
        button:hover {
            background: rgba(255, 255, 255, 0.2);
            transform: translateY(-2px);
        }
        
        button:active {
            transform: translateY(0);
        }
        
        @keyframes pulse {
            0%, 100% { opacity: 1; }
            50% { opacity: 0.5; }
        }
        
        @media (max-width: 480px) {
            h1 { font-size: 2rem; }
            .icon { font-size: 3rem; }
        }
    </style>
</head>
<body>
    <div class=" +:+ dq +:+
  "container" +:+ dq +:+
  ">
        <div class=" +:+ dq +:+
  "icon" +:+ dq +:+
  ">⚠️</div>
        <h1>Offline</h1>
        <p>You are currently offline. Please reconnect to access your secure vault.</p>
        <div class=" +:+ dq +:+
  "actions" +:+ dq +:+
  ">
            <button onclick=" +:+ dq +:+
  "window.location.reload()" +:+ dq +:+
  ">Retry</button>
            <button onclick=" +:+ dq +:+
  "window.location.href='/'" +:+ dq +:+
  ">Go Home</button>
        </div>
    </div>
</body>
</html>
".

Definition offline_response : Response :=
  mkResponse 200
    [("Content-Type", "text/html"); ("Cache-Control", "no-cache")]
    OFFLINE_HTML.

(** The promise the second install listener hands to [event.waitUntil]. *)
Definition on_install_offline : M unit :=
  caches_open STATIC_CACHE ;;
  let* env := ask in
  cache_put STATIC_CACHE (origin env +:+ "/offline") offline_response.

(** The first listener's chain up to the point where the fetches of
    [cache.addAll] are in flight. *)
Definition install_begin : M unit :=
  console_log "[Service Worker] Installing VantaVault v2.0..." ;;
  caches_open STATIC_CACHE ;;
  console_log "[Service Worker] Caching static assets" ;;
  let* env := ask in
  for_of STATIC_ASSETS (fun p => fetch_start (asset_request env p)).

(** The rest of the first listener's chain, from the settling of those
    fetches on. *)
Definition install_settle : M unit :=
  catch_
    ((let* rs := settle_all STATIC_ASSETS in
      for_of rs (fun kr => cache_put STATIC_CACHE (fst kr) (snd kr))) ;;
     console_log "[Service Worker] All static assets cached" ;;
     skipWaiting)
    (fun error =>
       console_error "[Service Worker] Cache installation failed:" error).

(** The host installs the worker when every promise given to
    [event.waitUntil] is fulfilled.  Both listeners run on the one install
    event.  The second has its response at hand: its [put] settles while
    the fetches of the first are in flight, and [cache.addAll] stores what
    it fetched, [/offline] included, after that. *)
Definition install_attempt (env : Env) (w : World) : bool * World :=
  let w1 := snd (install_begin env w) in
  let '(r2, w2) := on_install_offline env w1 in
  let '(r1, w3) := install_settle env w2 in
  (is_fulfilled r1 && is_fulfilled r2, w3).

(** ** Activate *)

Definition currentCaches : list string :=
  [CACHE_NAME; STATIC_CACHE; DYNAMIC_CACHE; MEDIA_CACHE].

(** The callback mapped over [cachesToDelete]. *)
Definition delete_old (cacheName : string) : M unit :=
  console_log ("[Service Worker] Deleting old cache: " +:+ cacheName) ;;
  caches_delete cacheName.

Definition on_activate : M unit :=
  console_log "[Service Worker] Activating..." ;;
  let* cacheNames := caches_keys in
  let cachesToDelete :=
    List.filter (fun cacheName => negb (includes currentCaches cacheName))
      cacheNames in
  for_of cachesToDelete delete_old ;;
  console_log "[Service Worker] Claiming clients" ;;
  clients_claim.

(** ** The four strategies *)

Definition offline_api_response (env : Env) : Response :=
  mkResponse 503
    [("Content-Type", "application/json"); ("Cache-Control", "no-store")]
    ("{" +:+ quoted "error" +:+ ":" +:+ quoted "You are offline" +:+ "," +:+
     quoted "offline" +:+ ":true," +:+
     quoted "timestamp" +:+ ":" +:+ quoted (toISOString env (clock env)) +:+
     "}").

Definition handleApiRequest (request : Request) : M (option Response) :=
  catch_
    (let* response := fetch request in resolve (Some response))
    (fun error =>
       console_error "[Service Worker] API request failed:" error ;;
       let* env := ask in
       resolve (Some (offline_api_response env))).

Definition media_unavailable : Response :=
  mkResponse 503 [("Content-Type", "text/plain")] "Media unavailable offline".

Definition handleMediaRequest (request : Request) : M (option Response) :=
  let* cachedResponse := caches_match (url request) in
  match cachedResponse with
  | Some r => resolve (Some r)
  | None =>
      catch_
        (let* response := fetch request in
         (if status response =? 200
          then detach (TaskCachePut MEDIA_CACHE (url request) response)
          else resolve tt) ;;
         resolve (Some response))
        (fun error =>
           console_error "[Service Worker] Media fetch failed:" error ;;
           if String.eqb (destination request) "image" then
             let* env := ask in
             caches_match (origin env +:+ "/static/icons/icon-192.svg")
           else resolve (Some media_unavailable))
  end.

Definition handlePageRequest (request : Request) : M (option Response) :=
  catch_
    (let* response := fetch request in
     detach (TaskCachePut DYNAMIC_CACHE (url request) response) ;;
     resolve (Some response))
    (fun error =>
       console_error "[Service Worker] Page fetch failed:" error ;;
       let* cachedResponse := caches_match (url request) in
       match cachedResponse with
       | Some r => resolve (Some r)
       | None =>
           let* env := ask in
           caches_match (origin env +:+ "/offline")
       end).

Definition offline_static : Response :=
  mkResponse 503 [("Content-Type", "text/plain")] "Offline".

Definition handleStaticRequest (request : Request) : M (option Response) :=
  let* cachedResponse := caches_match (url request) in
  match cachedResponse with
  | Some r =>
      fetchAndCache_unawaited request ;;
      resolve (Some r)
  | None =>
      catch_
        (let* response := fetchAndCache request in resolve (Some response))
        (fun _ => resolve (Some offline_static))
  end.

(** ** The router *)

(** What the fetch listener does with an event: leave it to the browser,
    or answer it with the promise given to [event.respondWith]. *)
Inductive Handling :=
| PassThrough
| RespondWith (p : Result (option Response)).

Definition respondWith (p : M (option Response)) (env : Env) (w : World)
  : Handling * World :=
  let '(r, w') := p env w in (RespondWith r, w').

Definition on_fetch (request : Request) (env : Env) (w : World)
  : Handling * World :=
  if negb (String.eqb (method request) "GET")
     || startsWith (url request) "chrome-extension://"
  then (PassThrough, w)
  else if startsWith (pathname request) "/api/"
  then respondWith (handleApiRequest request) env w
  else if startsWith (pathname request) "/api/media/"
  then respondWith (handleMediaRequest request) env w
  else if String.eqb (mode request) "navigate"
  then respondWith (handlePageRequest request) env w
  else respondWith (handleStaticRequest request) env w.

(** ** The janitor *)

(** What the loop of [cleanupCache] tests before it deletes an entry: a
    non-empty [date] header that parses to a time before the cutoff. *)
Definition expired (env : Env) (cutoff : Z) (r : Response) : bool :=
  match headers_get "date" (headers r) with
  | Some dateHeader =>
      if String.eqb dateHeader "" then false
      else
        match Date_parse env dateHeader with
        | Some responseDate => responseDate <? cutoff
        | None => false
        end
  | None => false
  end.

Definition expired_entry (env : Env) (cutoff : Z) (o : option Response)
  : bool :=
  match o with Some r => expired env cutoff r | None => false end.

(** The body of that loop. *)
Definition sweep_entry (name : string) (cutoff : Z) (request : string)
  : M unit :=
  let* response := cache_match name request in
  match response with
  | Some r =>
      match headers_get "date" (headers r) with
      | Some dateHeader =>
          if String.eqb dateHeader "" then resolve tt
          else
            let* env := ask in
            match Date_parse env dateHeader with
            | Some responseDate =>
                if responseDate <? cutoff then cache_delete name request
                else resolve tt
            | None => resolve tt
            end
      | None => resolve tt
      end
  | None => resolve tt
  end.

(** The loop that [cleanupCache] runs over one partition (the source
    writes it out twice, for the dynamic and for the media cache). *)
Definition cleanup_partition (name : string) (cutoff : Z) : M unit :=
  let* requests := cache_keys name in
  for_of requests (sweep_entry name cutoff).

Definition cleanupCache : M unit :=
  console_log "[Service Worker] Running periodic cache cleanup" ;;
  catch_
    (caches_open DYNAMIC_CACHE ;;
     let* env := ask in
     let oneWeekAgo := clock env - 7 * 24 * 60 * 60 * 1000 in
     cleanup_partition DYNAMIC_CACHE oneWeekAgo ;;
     caches_open MEDIA_CACHE ;;
     let oneMonthAgo := clock env - 30 * 24 * 60 * 60 * 1000 in
     cleanup_partition MEDIA_CACHE oneMonthAgo ;;
     console_log "[Service Worker] Cache cleanup completed")
    (fun error =>
       console_error "[Service Worker] Cache cleanup failed:" error).

Definition on_periodicsync (tag : string) : M unit :=
  if String.eqb tag "cleanup-cache" then cleanupCache else resolve tt.

(** [clearCache()], the CLEAR_CACHE command. *)
Definition clearCache : M unit :=
  let* cacheNames := caches_keys in
  for_of cacheNames caches_delete ;;
  console_log "[Service Worker] All caches cleared".

(** ** Background sync *)

Definition retryUpload (upload : PendingUpload) : M unit := resolve tt.
Definition removePendingUpload (id : string) : M unit := resolve tt.
Definition syncSettingChange (change : SettingChange) : M unit := resolve tt.
Definition removeOfflineSetting (id : string) : M unit := resolve tt.

Definition UPLOAD_SYNC_SUCCESS (id : string) : Message :=
  mkMessage "UPLOAD_SYNC_SUCCESS" [("id", id)].
Definition UPLOAD_SYNC_FAILED (id error : string) : Message :=
  mkMessage "UPLOAD_SYNC_FAILED" [("id", id); ("error", error)].

(** The body of the loop of [syncPendingUploads]. *)
Definition sync_upload (upload : PendingUpload) : M unit :=
  catch_
    (retryUpload upload ;;
     removePendingUpload (upload_id upload) ;;
     console_log ("[Service Worker] Upload synced: " +:+ upload_id upload) ;;
     sendMessageToClient (UPLOAD_SYNC_SUCCESS (upload_id upload)))
    (fun error =>
       console_error
         ("[Service Worker] Upload sync failed: " +:+ upload_id upload) error ;;
       sendMessageToClient (UPLOAD_SYNC_FAILED (upload_id upload) error)).


(** The body of the loop of [syncSettings]. *)
Definition sync_setting (change : SettingChange) : M unit :=
  catch_
    (syncSettingChange change ;;
     removeOfflineSetting (change_id change) ;;
     console_log ("[Service Worker] Setting synced: " +:+ change_key change))
    (fun error =>
       console_error
         ("[Service Worker] Setting sync failed: " +:+ change_key change) error).




Definition touches_cache (e : Event) : bool :=
  match e with
  | EvCacheRead _ | EvCacheWrite _ _ | EvCacheDelete _ _
  | EvStorageDelete _ => true
  | _ => false
  end.

(** Every cache write among the tasks stores a response of status 200. *)
Definition puts_only_200 (ts : list Task) : bool :=
  forallb (fun t => match t with
                    | TaskCachePut _ _ r => status r =? 200
                    | _ => true
                    end) ts.

(** ** Sample hosts, requests and worlds *)

Definition sample_dates (s : string) : option Z :=
  if String.eqb s "Thu, 01 Jan 2026 00:00:00 GMT" then Some 1767225600000
  else if String.eqb s "Sat, 03 Jan 2026 00:00:00 GMT" then Some 1767398400000
  else if String.eqb s "Sat, 06 Dec 2025 00:00:00 GMT" then Some 1764979200000
  else if String.eqb s "Fri, 09 Jan 2026 00:00:00 GMT" then Some 1767916800000
  else None.

(** A host whose network settles every fetch the way [net] says, on
    Friday 9 January 2026 at noon. *)
Definition host (net : Request -> Result Response) : Env :=
  mkEnv "https://vault.example" net 1767960000000 sample_dates
    (fun _ => "2026-01-09T12:00:00.000Z").

Definition offline : Env :=
  host (fun _ => Rejected "TypeError: Failed to fetch").

Definition respond_with (r : Response) : Env := host (fun _ => Fulfilled r).

Definition empty_world : World := mkWorld [] [] [] ["window-1"].

Definition with_caches (cs : list (string * Cache)) : World :=
  mkWorld cs [] [] ["window-1"].

Definition media_request : Request :=
  mkRequest "GET" "https://vault.example/api/media/7" "/api/media/7"
    "no-cors" "image".
Definition api_request : Request :=
  mkRequest "GET" "https://vault.example/api/settings" "/api/settings"
    "cors" "".
Definition page_request : Request :=
  mkRequest "GET" "https://vault.example/gallery" "/gallery" "navigate"
    "document".
Definition style_request : Request :=
  mkRequest "GET" "https://vault.example/static/css/main.css"
    "/static/css/main.css" "no-cors" "style".

Definition cached_media : Response :=
  mkResponse 200 [("Content-Type", "image/png")] "cached bytes".
Definition fresh_media : Response :=
  mkResponse 200 [("Content-Type", "image/png")] "fresh bytes".
Definition not_found : Response :=
  mkResponse 404 [("Content-Type", "text/html")] "<h1>Not Found</h1>".
Definition stylesheet : Response :=
  mkResponse 200 [("Content-Type", "text/css")] "body { color: #fff; }".

Definition old_page : Response :=
  mkResponse 200 [("Date", "Sat, 06 Dec 2025 00:00:00 GMT")] "<h1>Old</h1>".
Definition recent_page : Response :=
  mkResponse 200 [("Date", "Sat, 03 Jan 2026 00:00:00 GMT")] "<h1>New</h1>".
Definition undated_page : Response :=
  mkResponse 200 [("Content-Type", "text/html")] "<h1>Undated</h1>".

(** A dynamic cache with an entry 34 days old, one 6 and a half days old
    and one without a [date] header; the media cache holds the 34 days old
    one too. *)
Definition janitor_world : World :=
  with_caches
    [(DYNAMIC_CACHE,
      {[ "https://vault.example/old" := old_page;
         "https://vault.example/recent" := recent_page;
         "https://vault.example/undated" := undated_page ]});
     (MEDIA_CACHE, {[ "https://vault.example/api/media/1" := old_page ]})].

Definition upload_a : PendingUpload := mkUpload "u1".
Definition change_a : SettingChange := mkChange "s1" "theme".

Definition media_hit_world : World :=
  with_caches [(MEDIA_CACHE, {[ url media_request := cached_media ]})].

(** What the server answers for [/offline] and for anything else. *)
Definition server_offline_page : Response :=
  mkResponse 200 [("Content-Type", "text/html")] "<h1>You are offline</h1>".
Definition serving : Env :=
  host (fun request =>
          Fulfilled (if String.eqb (pathname request) "/offline"
                     then server_offline_page else stylesheet)).

(** The world an install attempt with that server leaves. *)
Definition installed_online : World := snd (install_attempt serving empty_world).

(** The world an install attempt without network leaves, and that world
    after a CLEAR_CACHE command. *)
Definition installed_offline : World := snd (install_attempt offline empty_world).
Definition cleared_world : World := snd (clearCache offline installed_offline).

(** ** Cache statistics *)

(** [for (const x of xs) { acc = await body(acc, x) }] *)
Fixpoint for_fold {A S} (xs : list A) (body : S -> A -> M S) (acc : S) : M S :=
  match xs with
  | [] => resolve acc
  | x :: xs' => let* acc' := body acc x in for_fold xs' body acc'
  end.

(** [(await response.blob()).size]: the number of bytes of the body. *)
Definition blob_size (r : Response) : Z := Z.of_nat (String.length (body r)).

(** The body of the loop of [calculateCacheSize]. *)
Definition add_size (name : string) (totalSize : Z) (request : string) : M Z :=
  let* response := cache_match name request in
  match response with
  | Some r => resolve (totalSize + blob_size r)
  | None => resolve totalSize
  end.

Definition calculateCacheSize (name : string) : M Z :=
  let* requests := cache_keys name in
  for_fold requests (add_size name) 0.

Record CacheStats := mkStats {
  stats_count : nat;
  stats_size : Z }.

(** The body of the loop of [getCacheInfo]; [info] is the object being
    filled, keyed by cache name. *)
Definition add_info (info : gmap string CacheStats) (cacheName : string)
  : M (gmap string CacheStats) :=
  caches_open cacheName ;;
  let* requests := cache_keys cacheName in
  let* size := calculateCacheSize cacheName in
  resolve (<[cacheName := mkStats (length requests) size]> info).

Definition getCacheInfo : M (gmap string CacheStats) :=
  let* cacheNames := caches_keys in
  for_fold cacheNames add_info ∅.

(** The statistics of one cache, read off its content. *)
Definition stats_of (c : Cache) : CacheStats :=
  mkStats (length (map_to_list c))
    (foldr (fun kr acc => blob_size (snd kr) + acc) 0 (map_to_list c)).

(** ** Sequences of host events *)

(** A fetch event, or a turn of the event loop in which what was detached
    runs; each with the host as it is at that moment. *)
Inductive HostEvent :=
| FetchEvent (env : Env) (request : Request)
| Turn (env : Env).

Definition handle_event (w : World) (e : HostEvent) : World :=
  match e with
  | FetchEvent env request => snd (on_fetch request env w)
  | Turn env => tick env w
  end.

Definition run_events (es : list HostEvent) (w : World) : World :=
  foldl handle_event w es.

(** The request is one the router hands to the page strategy. *)
Definition reaches_page (request : Request) : bool :=
  String.eqb (method request) "GET"
  && negb (startsWith (url request) "chrome-extension://")
  && negb (startsWith (pathname request) "/api/")
  && String.eqb (mode request) "navigate".

Definition is_navigation (e : HostEvent) : bool :=
  match e with
  | FetchEvent _ request => reaches_page request
  | Turn _ => false
  end.

(** Every cached response has status 200 and so has every response whose
    write is pending. *)
Definition only_200 (w : World) : Prop :=
  (forall name key r, entry name key w = Some r -> status r = 200)
  /\ puts_only_200 (pending w) = true.

(** The first cache that holds [key] comes before any cache named
    [DYNAMIC_CACHE]. *)
Fixpoint served_before_dynamic (key : string) (cs : list (string * Cache))
  : bool :=
  match cs with
  | [] => false
  | (n, c) :: cs' =>
      if String.eqb n DYNAMIC_CACHE then false
      else match c !! key with
           | Some _ => true
           | None => served_before_dynamic key cs'
           end
  end.

(** The name of the first cache that holds [key]. *)
Fixpoint holder (key : string) (cs : list (string * Cache)) : option string :=
  match cs with
  | [] => None
  | (n, c) :: cs' =>
      match c !! key with
      | Some _ => Some n
      | None => holder key cs'
      end
  end.

Definition newer_stylesheet : Response :=
  mkResponse 200 [("Content-Type", "text/css")] "body { color: #000; }".

(** The stylesheet stored at install in the static cache, the dynamic
    cache created after it. *)
Definition precached_world : World :=
  with_caches
    [(STATIC_CACHE, {[ url style_request := stylesheet ]});
     (DYNAMIC_CACHE, ∅)].

(** The stylesheet stored by an earlier request in the dynamic cache. *)
Definition revisited_world : World :=
  with_caches
    [(STATIC_CACHE, ∅);
     (DYNAMIC_CACHE, {[ url style_request := stylesheet ]})].

Definition broken_date_page : Response :=
  mkResponse 200 [("Date", "yesterday-ish")] "<h1>?</h1>".

End ServiceWorker.

(** * The gallery's upload queue *)

Module Gallery.

Record File := mkFile {
  file_name : string;
  file_type : string;
  file_size : Z }.

Record QueueItem := mkItem {
  file : File;
  progress : Z;
  status : string }.

(** The part of a [GalleryManager] and of its page that file selection
    touches: the queue, the notifications shown, the queue as drawn. *)
Record GalleryManager := mkGallery {
  uploadQueue : list QueueItem;
  notifications : list (string * string);
  queueList : list QueueItem }.

Definition showNotification (message type : string) (g : GalleryManager)
  : GalleryManager :=
  mkGallery (uploadQueue g) (notifications g ++ [(message, type)]) (queueList g).

Definition showError (message : string) (g : GalleryManager) : GalleryManager :=
  showNotification message "error" g.

Definition updateUploadQueueUI (g : GalleryManager) : GalleryManager :=
  mkGallery (uploadQueue g) (notifications g) (uploadQueue g).

Definition isValidType (f : File) : bool :=
  startsWith (file_type f) "image/" || startsWith (file_type f) "video/".

Definition isValidSize (f : File) : bool :=
  file_size f <=? 500 * 1024 * 1024.

(** The callback given to [files.filter]. *)
Definition check_file (f : File) (g : GalleryManager) : bool * GalleryManager :=
  let g1 :=
    if negb (isValidType f)
    then showError (file_name f +:+ ": Invalid file type") g else g in
  let g2 :=
    if negb (isValidSize f)
    then showError (file_name f +:+ ": File too large (max 500MB)") g1
    else g1 in
  (isValidType f && isValidSize f, g2).

(** [files.filter(callback)] with the callback's effects threaded through. *)
Fixpoint filter_files (files : list File) (g : GalleryManager)
  : list File * GalleryManager :=
  match files with
  | [] => ([], g)
  | f :: fs =>
      let '(keep, g1) := check_file f g in
      let '(rest, g2) := filter_files fs g1 in
      (if keep then f :: rest else rest, g2)
  end.

Definition enqueue (f : File) : QueueItem := mkItem f 0 "pending".

(** The errors shown for one file. *)
Definition rejections (f : File) : list (string * string) :=
  (if negb (isValidType f)
   then [(file_name f +:+ ": Invalid file type", "error")] else [])
  ++ (if negb (isValidSize f)
      then [(file_name f +:+ ": File too large (max 500MB)", "error")]
      else []).

Definition photo : File := mkFile "beach.jpg" "image/jpeg" 2048.
Definition movie : File := mkFile "trip.mp4" "video/mp4" (500 * 1024 * 1024).
Definition huge_movie : File :=
  mkFile "film.mkv" "video/x-matroska" (500 * 1024 * 1024 + 1).
Definition document : File := mkFile "notes.pdf" "application/pdf" 1000.
Definition empty_gallery : GalleryManager := mkGallery [] [] [].

Definition handleFileSelection (files : list File) (g : GalleryManager)
  : GalleryManager :=
  let '(validFiles, g1) := filter_files files g in
  if (length validFiles =? 0)%nat then g1
  else
    updateUploadQueueUI
      (mkGallery (uploadQueue g1 ++ map enqueue validFiles)
         (notifications g1) (queueList g1)).

(** ** Removing from the queue *)

(** [l.splice(index, 1)], for an integer index: a negative index counts
    from the end, an index past the end removes nothing. *)
Definition splice_one {A} (index : Z) (l : list A) : list A :=
  let len := Z.of_nat (length l) in
  let start := if index <? 0 then Z.max (len + index) 0 else Z.min index len in
  take (Z.to_nat start) l ++ drop (S (Z.to_nat start)) l.

Definition removeFromQueue (index : Z) (g : GalleryManager) : GalleryManager :=
  updateUploadQueueUI
    (mkGallery (splice_one index (uploadQueue g)) (notifications g)
       (queueList g)).

(** ** Uploading the queue *)

(** How the XMLHttpRequest of one upload ends: the rounded percentages of
    its progress events, then a [load] event with a status and a body
    that parses as JSON or not, an [error] event, or neither (abort,
    timeout). *)
Inductive Xhr :=
| XhrLoad (percents : list Z) (status : Z) (json : bool)
| XhrError (percents : list Z)
| XhrOther (percents : list Z).

(** How the promise of [uploadFile] settles.  A [load] with status 200
    whose body does not parse throws inside the listener: the promise is
    left pending, as it is when neither [load] nor [error] fires. *)
Inductive Settled := Resolves | Rejects (message : string) | NeverSettles.

Definition percents_of (x : Xhr) : list Z :=
  match x with
  | XhrLoad ps _ _ | XhrError ps | XhrOther ps => ps
  end.

Definition settles (x : Xhr) : Settled :=
  match x with
  | XhrLoad _ status json =>
      if status =? 200 then (if json then Resolves else NeverSettles)
      else Rejects ("Upload failed: " +:+ pretty status)
  | XhrError _ => Rejects "Network error"
  | XhrOther _ => NeverSettles
  end.

(** The manager with what uploading adds: the flag, the folder, the
    requests sent (file and folder, oldest first), the calls of
    [loadGallery] and the cleanups waiting on their 2 s timer.  The
    server answers the n-th request as [server n] says. *)
Record Uploader := mkUploader {
  manager : GalleryManager;
  isUploading : bool;
  currentFolder : string;
  sent : list (File * string);
  reloads : nat;
  cleanups : nat }.

Definition with_manager (g : GalleryManager) (u : Uploader) : Uploader :=
  mkUploader g (isUploading u) (currentFolder u) (sent u) (reloads u)
    (cleanups u).

Definition with_uploading (b : bool) (u : Uploader) : Uploader :=
  mkUploader (manager u) b (currentFolder u) (sent u) (reloads u) (cleanups u).

(** The item at index [i] mutated in place. *)
Definition set_item (i : nat) (item : QueueItem) (u : Uploader) : Uploader :=
  let g := manager u in
  with_manager
    (mkGallery (<[i := item]> (uploadQueue g)) (notifications g) (queueList g))
    u.

(** [this.updateUploadQueueUI()] *)
Definition render (u : Uploader) : Uploader :=
  with_manager (updateUploadQueueUI (manager u)) u.

(** A mutation of the item at index [i] followed by a rendering. *)
Definition put_item (i : nat) (item : QueueItem) (u : Uploader) : Uploader :=
  render (set_item i item u).

Definition with_status (st : string) (item : QueueItem) : QueueItem :=
  mkItem (file item) (progress item) st.

(** The progress callback, once per progress event. *)
Definition after_progress (ps : list Z) (item : QueueItem) : QueueItem :=
  foldl (fun it p => mkItem (file it) p (status it)) item ps.

Definition is_completed (item : QueueItem) : bool :=
  String.eqb (status item) "completed".

(** The callback of the 2 s timer. *)
Definition cleanup_completed (u : Uploader) : Uploader :=
  let g := manager u in
  mkUploader
    (updateUploadQueueUI
       (mkGallery
          (List.filter (fun item => negb (is_completed item)) (uploadQueue g))
          (notifications g) (queueList g)))
    (isUploading u) (currentFolder u) (sent u) (reloads u)
    (Nat.pred (cleanups u)).

(** *** What else runs on the page while an upload is awaited *)

(** The 2 s timer of an earlier run fires, a remove button is clicked,
    files are dropped or chosen.  (A click on the upload button does
    nothing then: the flag is up.) *)
Inductive PageEvent :=
| TimerFires
| RemoveClicked (index : Z)
| FilesSelected (files : list File).

(** The loop holds the item it uploads as an object, and the object stays
    what it is while the array changes around it.  These say where in the
    array the object held at index [p] is afterwards; [None] when it is
    no longer in the array. *)

(** After [this.uploadQueue.filter(item => item.status !== 'completed')]. *)
Definition filter_moves (q : list QueueItem) (p : nat) : option nat :=
  match q !! p with
  | Some item =>
      if is_completed item then None
      else Some (length (List.filter (fun it => negb (is_completed it))
                           (take p q)))
  | None => None
  end.

(** After [this.uploadQueue.splice(index, 1)] on an array of length
    [len]. *)
Definition splice_moves (index : Z) (len : nat) (p : nat) : option nat :=
  let lenz := Z.of_nat len in
  let start := if index <? 0 then Z.max (lenz + index) 0 else Z.min index lenz in
  let removed := Z.to_nat start in
  if (len <=? removed)%nat then Some p
  else if (removed =? p)%nat then None
  else if (removed <? p)%nat then Some (Nat.pred p)
  else Some p.

(** One page event, with the place of the object the loop holds.  The
    timer's callback runs when a timer is waiting. *)
Definition page_event (e : PageEvent) (held : option nat) (u : Uploader)
  : option nat * Uploader :=
  match e with
  | TimerFires =>
      match cleanups u with
      | O => (held, u)
      | S _ =>
          (match held with
           | Some p => filter_moves (uploadQueue (manager u)) p
           | None => None
           end,
           cleanup_completed u)
      end
  | RemoveClicked index =>
      (match held with
       | Some p => splice_moves index (length (uploadQueue (manager u))) p
       | None => None
       end,
       with_manager (removeFromQueue index (manager u)) u)
  | FilesSelected files =>
      (held, with_manager (handleFileSelection files (manager u)) u)
  end.

Definition meanwhile (es : list PageEvent) (held : option nat) (u : Uploader)
  : option nat * Uploader :=
  foldl (fun hu e => page_event e (fst hu) (snd hu)) (held, u) es.

(** A mutation of the object the loop holds: it shows in the queue when
    the object is still there. *)
Definition set_held (held : option nat) (item : QueueItem) (u : Uploader)
  : Uploader :=
  match held with
  | Some p => set_item p item u
  | None => u
  end.

(** The same followed by a rendering. *)
Definition put_held (held : option nat) (item : QueueItem) (u : Uploader)
  : Uploader :=
  render (set_held held item u).

Inductive Outcome :=
| Done (u : Uploader)      (* the async function returned *)
| Stuck (u : Uploader).    (* it waits on a promise that never settles *)

(** The [for] loop of [processUploadQueue] from index [i] on.  The head
    of [page] lists what else runs on the page while the next upload is
    awaited, its tail does so for the uploads after it; the progress
    events of the upload mutate the held object only, so that their order
    among the page events does not show once the upload has settled.
    Index and length are read from the queue as it is at each turn of
    the loop.  [fuel] bounds the number of turns. *)
Fixpoint upload_from (server : nat -> File -> string -> Xhr)
  (folderId : string) (page : list (list PageEvent)) (fuel : nat) (i : nat)
  (u : Uploader) : Outcome :=
  match fuel with
  | O => Done u
  | S fuel' =>
      match uploadQueue (manager u) !! i with
      | None => Done u
      | Some item =>
          if String.eqb (status item) "completed"
          then upload_from server folderId page fuel' (S i) u
          else
            let uploading := with_status "uploading" item in
            let u1 := put_item i uploading u in
            let x := server (length (sent u1)) (file item) folderId in
            let u2 :=
              mkUploader (manager u1) (isUploading u1) (currentFolder u1)
                (sent u1 ++ [(file item, folderId)]) (reloads u1)
                (cleanups u1) in
            let hu := meanwhile (hd [] page) (Some i) u2 in
            let held := fst hu in
            let progressed := after_progress (percents_of x) uploading in
            let u3 := put_held held progressed (snd hu) in
            match settles x with
            | Resolves =>
                upload_from server folderId (tl page) fuel' (S i)
                  (put_held held (mkItem (file item) 100 "completed") u3)
            | Rejects _ =>
                let failed := with_status "failed" progressed in
                let u4 := set_held held failed u3 in
                let u5 :=
                  with_manager
                    (showError
                       ("Failed to upload " +:+ file_name (file item))
                       (manager u4)) u4 in
                upload_from server folderId (tl page) fuel' (S i) (render u5)
            | NeverSettles => Stuck u3
            end
      end
  end.

(** The files a page event hands to [handleFileSelection]; the queue
    grows by no more than that. *)
Definition selected (e : PageEvent) : nat :=
  match e with
  | FilesSelected files => length files
  | _ => 0%nat
  end.

Definition selected_during (page : list (list PageEvent)) : nat :=
  list_sum (map (fun es => list_sum (map selected es)) page).

(** [processUploadQueue()], with what else runs on the page during each
    of its uploads.  The loop takes a turn per queue entry, of which
    there are no more than at the start and selected since.
    [loadGallery] is counted and taken to return; what runs on the page
    while it is awaited is left to after the function has returned. *)
Definition processUploadQueue (server : nat -> File -> string -> Xhr)
  (page : list (list PageEvent)) (u : Uploader) : Outcome :=
  if isUploading u || (length (uploadQueue (manager u)) =? 0)%nat then Done u
  else
    let u1 := with_uploading true u in
    let u2 := render u1 in
    match
      upload_from server (currentFolder u2) page
        (length (uploadQueue (manager u2)) + selected_during page) 0 u2
    with
    | Stuck u' => Stuck u'
    | Done u3 =>
        let u4 := with_uploading false u3 in
        let u5 := render u4 in
        if existsb is_completed (uploadQueue (manager u5))
        then Done (mkUploader (manager u5) (isUploading u5) (currentFolder u5)
                     (sent u5) (S (reloads u5)) (S (cleanups u5)))
        else Done u5
    end.

(** What a run makes of one item: a completed item is left alone, any
    other ends completed with progress 100, or failed. *)
Definition settled_from (item item' : QueueItem) : Prop :=
  file item' = file item
  /\ if is_completed item then item' = item
     else (status item' = "completed" /\ progress item' = 100)
          \/ status item' = "failed".

Definition new_uploader (g : GalleryManager) : Uploader :=
  mkUploader g false "default" [] 0 0.

(** A server that refuses the second request and accepts the others. *)
Definition second_fails (n : nat) (f : File) (folder : string) : Xhr :=
  if (n =? 1)%nat then XhrLoad [40] 500 true else XhrLoad [50; 100] 200 true.

(** A server whose answers to accepted uploads are not JSON. *)
Definition garbled (n : nat) (f : File) (folder : string) : Xhr :=
  XhrLoad [100] 200 false.

(** Three files selected on a fresh page. *)
Definition three_queued : Uploader :=
  new_uploader (handleFileSelection [photo; movie; photo] empty_gallery).

(** Where the page is left when the answer to the first upload is not
    JSON. *)
Definition stuck_uploader : Uploader :=
  match processUploadQueue garbled [] three_queued with
  | Done u | Stuck u => u
  end.

(** A server that accepts everything. *)
Definition accepting (n : nat) (f : File) (folder : string) : Xhr :=
  XhrLoad [100] 200 true.

(** A page on which one photo was uploaded less than 2 s ago, so that the
    timer of that run is waiting, and two more files were selected
    since. *)
Definition selected_after_a_run : Uploader :=
  mkUploader
    (handleFileSelection [movie; photo]
       (mkGallery [mkItem photo 100 "completed"] []
          [mkItem photo 100 "completed"]))
    false "default" [(photo, "default")] 1 1.

(** ** Names and dates on a tile *)

(** A name as JavaScript holds it: the sequence of its UTF-16 code
    units, which is what [length], [substring] and [split] count.  A
    character outside the basic plane takes two of them. *)
Definition ustring : Type := list N.

(** The code units of a string of ASCII characters. *)
Definition units (s : string) : ustring :=
  map N_of_ascii (String.list_ascii_of_string s).

(** The full stop. *)
Definition dot : N := 46.

(** The code unit occurs in the string. *)
Definition mentions (c : N) (s : ustring) : bool := existsb (N.eqb c) s.

(** [s.split(sep)] for a separator of one code unit. *)
Fixpoint split (sep : N) (s : ustring) : list ustring :=
  match s with
  | [] => [[]]
  | c :: s' =>
      if N.eqb c sep then [] :: split sep s'
      else match split sep s' with
           | [] => [[c]]
           | seg :: rest => (c :: seg) :: rest
           end
  end.

(** [parts.pop()] of a non-empty array. *)
Definition pop (parts : list ustring) : ustring := List.last parts [].

(** [s.substring(0, n)]: a negative end counts as 0, one past the end as
    the length. *)
Definition substring0 (n : Z) (s : ustring) : ustring := take (Z.to_nat n) s.

Definition truncateFilename (filename : ustring) (maxLength : Z) : ustring :=
  if Z.of_nat (length filename) <=? maxLength then filename
  else
    let extension := pop (split dot filename) in
    let name :=
      substring0 (maxLength - Z.of_nat (length extension) - 4) filename in
    name ++ units "... ." ++ extension.

(** A name of 15 characters, ten of them Cyrillic, which takes 25 bytes
    in UTF-8. *)
Definition cyrillic_photo : ustring :=
  [1092; 1086; 1090; 1086; 1075; 1088; 1072; 1092; 1080; 1103]%N
  ++ units ".jpeg".

(** The default of the second parameter. *)
Definition default_maxLength : Z := 20.

(** [formatDate(dateString)] on a host where [new Date(dateString)] has
    the time [parse dateString] ([None] for an invalid date), the clock
    reads [now] and [toLocaleDateString] prints as [locale] says.  Times
    are whole milliseconds within 8.64e15 of the epoch, on which the
    quotient by 86400000 followed by [Math.floor] is the integer
    quotient. *)
Definition formatDate (parse : string -> option Z) (now : Z)
  (locale : option Z -> string) (dateString : string) : string :=
  match parse dateString with
  | None => locale None
  | Some date =>
      let diffMs := now - date in
      let diffDays := diffMs / (1000 * 60 * 60 * 24) in
      if diffDays =? 0 then "Today"
      else if diffDays =? 1 then "Yesterday"
      else if diffDays <? 7 then pretty diffDays +:+ " days ago"
      else locale (Some date)
  end.

End Gallery.

(** * The PIN pad *)

Module PinLock.

(** The lock and the part of its page that typing touches.  The page has
    the [pinValue] element; [dots] says of each [.pin-dot] element
    whether it carries the class [filled]. *)
Record Lock := mkLock {
  pin : string;
  maxLength : Z;
  isSubmitting : bool;
  pinValue : string;          (* textContent of #pinValue *)
  dots : list bool;
  submitTimers : nat;         (* setTimeout(() => this.submitPin(), 300) *)
  vibrations : nat }.         (* navigator.vibrate(10) *)

(** The bullet character, three bytes in UTF-8. *)
Definition bullet : string := "•".

(** [s.repeat(n)] *)
Fixpoint repeat_string (s : string) (n : nat) : string :=
  match n with
  | O => EmptyString
  | S n' => s +:+ repeat_string s n'
  end.

(** The constructor, on a page with [n] dots. *)
Definition new_lock (n : nat) : Lock :=
  mkLock "" 6 false "" (replicate n false) 0 0.

Definition updatePinDisplay (l : Lock) : Lock :=
  mkLock (pin l) (maxLength l) (isSubmitting l)
    (repeat_string bullet (String.length (pin l)))
    (dots l) (submitTimers l) (vibrations l).

(** [addDigit(digit)]; the flag says that a TypeError was thrown, which
    happens when there is no dot for the new length.  [canVibrate] is
    [navigator.vibrate]. *)
Definition addDigit (canVibrate : bool) (digit : string) (l : Lock)
  : bool * Lock :=
  if maxLength l <=? Z.of_nat (String.length (pin l)) then (false, l)
  else
    let l1 :=
      updatePinDisplay
        (mkLock (pin l +:+ digit) (maxLength l) (isSubmitting l) (pinValue l)
           (dots l) (submitTimers l) (vibrations l)) in
    let l2 :=
      if Z.of_nat (String.length (pin l1)) =? maxLength l1
      then mkLock (pin l1) (maxLength l1) (isSubmitting l1) (pinValue l1)
             (dots l1) (S (submitTimers l1)) (vibrations l1)
      else l1 in
    match String.length (pin l2) with
    | O => (true, l2)      (* dots[-1] is undefined *)
    | S i =>
        match dots l2 !! i with
        | None => (true, l2)
        | Some _ =>
            let l3 :=
              mkLock (pin l2) (maxLength l2) (isSubmitting l2) (pinValue l2)
                (<[i := true]> (dots l2)) (submitTimers l2) (vibrations l2) in
            (false,
             if canVibrate
             then mkLock (pin l3) (maxLength l3) (isSubmitting l3)
                    (pinValue l3) (dots l3) (submitTimers l3)
                    (S (vibrations l3))
             else l3)
        end
    end.

Definition clearPin (l : Lock) : Lock :=
  if (String.length (pin l) =? 0)%nat then l
  else
    let l1 :=
      updatePinDisplay
        (mkLock "" (maxLength l) (isSubmitting l) (pinValue l) (dots l)
           (submitTimers l) (vibrations l)) in
    mkLock (pin l1) (maxLength l1) (isSubmitting l1) (pinValue l1)
      (map (fun _ => false) (dots l1)) (submitTimers l1) (vibrations l1).

(** What the keypad and the keyboard do to the lock while it is not
    submitting: a digit key, or the clear button and Backspace. *)
Inductive Key :=
| Digit (d : string)
| Clear.

Definition press (canVibrate : bool) (l : Lock) (k : Key) : Lock :=
  match k with
  | Digit d => snd (addDigit canVibrate d l)
  | Clear => clearPin l
  end.

Definition single (k : Key) : bool :=
  match k with
  | Digit d => (String.length d =? 1)%nat
  | Clear => true
  end.

(** The callback of the 1 s timer that [handleFailedAttempt] sets: every
    dot loses [filled], then [clearPin()]. *)
Definition failed_attempt_timeout (l : Lock) : Lock :=
  clearPin
    (mkLock (pin l) (maxLength l) (isSubmitting l) (pinValue l)
       (map (fun _ => false) (dots l)) (submitTimers l) (vibrations l)).

(** The page shows the PIN: as many bullets and as many filled dots, the
    first ones, as the PIN has characters. *)
Definition shows_pin (l : Lock) : Prop :=
  pinValue l = repeat_string bullet (String.length (pin l))
  /\ dots l
     = replicate (String.length (pin l)) true
       ++ replicate (length (dots l) - String.length (pin l)) false.

(** The lock is as the constructor and the typing leave it. *)
Definition well_formed (l : Lock) : Prop :=
  maxLength l = 6
  /\ (String.length (pin l) <= 6)%nat
  /\ shows_pin l
  /\ (6 <= length (dots l))%nat.

(** The digits pressed since the last clear, latest first, of the keys
    given latest first. *)
Fixpoint trailing_digits (rkeys : list Key) : list string :=
  match rkeys with
  | Digit d :: r => d :: trailing_digits r
  | _ => []
  end.

(** The digits pressed since the last clear, in the order pressed. *)
Definition since_clear (keys : list Key) : list string :=
  reverse (trailing_digits (reverse keys)).

Definition join (ss : list string) : string :=
  foldr String.append EmptyString ss.

(** What one key adds to the number of submits scheduled, given the
    keys before it: one when it is the sixth digit since the last clear. *)
Definition schedules (keys : list Key) (k : Key) : nat :=
  match k with
  | Digit _ => if (length (since_clear keys) =? 5)%nat then 1 else 0
  | Clear => 0
  end.

End PinLock.

(** * The theme of the app *)

Module Theme.

Definition KEY : string := "vantavault_theme".

(** The app and the part of its page that the theme touches.  A meta
    element that the page does not have is [None]. *)
Record App := mkApp {
  theme : string;
  isIOS : bool;
  storage : gmap string string;     (* localStorage *)
  dataTheme : option string;        (* the data-theme attribute of <html> *)
  themeColor : option string;       (* content of meta[name=theme-color] *)
  statusBar : option string;        (* content of the iOS status bar meta *)
  watching : bool;                  (* the prefers-color-scheme listener *)
  shown : list string }.            (* notifications *)

Definition set_theme (t : string) (a : App) : App :=
  mkApp t (isIOS a) (storage a) (dataTheme a) (themeColor a) (statusBar a)
    (watching a) (shown a).

(** A value of [localStorage.getItem] is truthy. *)
Definition truthy (o : option string) : bool :=
  match o with
  | Some s => negb (String.eqb s "")
  | None => false
  end.

(** [applyTheme()]; the flag says that a TypeError was thrown, which
    happens when a meta element is missing.  [localStorage] is taken to
    accept the write. *)
Definition applyTheme (a : App) : bool * App :=
  let a1 :=
    mkApp (theme a) (isIOS a) (<[KEY := theme a]> (storage a))
      (Some (theme a)) (themeColor a) (statusBar a) (watching a) (shown a) in
  match themeColor a1 with
  | None => (true, a1)
  | Some _ =>
      let a2 :=
        mkApp (theme a1) (isIOS a1) (storage a1) (dataTheme a1)
          (Some (if String.eqb (theme a1) "dark" then "#000000" else "#ffffff"))
          (statusBar a1) (watching a1) (shown a1) in
      if isIOS a2 then
        match statusBar a2 with
        | None => (true, a2)
        | Some _ =>
            (false,
             mkApp (theme a2) (isIOS a2) (storage a2) (dataTheme a2)
               (themeColor a2)
               (Some (if String.eqb (theme a2) "dark"
                      then "black-translucent" else "default"))
               (watching a2) (shown a2))
        end
      else (false, a2)
  end.

(** [setupTheme()] when the system prefers dark or not. *)
Definition setupTheme (systemPrefersDark : bool) (a : App) : bool * App :=
  let savedTheme := storage a !! KEY in
  let a1 :=
    match savedTheme with
    | Some saved =>
        if truthy savedTheme then set_theme saved a
        else if systemPrefersDark then set_theme "dark" a
        else set_theme "light" a
    | None =>
        if systemPrefersDark then set_theme "dark" a else set_theme "light" a
    end in
  let '(threw, a2) := applyTheme a1 in
  if threw then (true, a2)
  else (false,
        mkApp (theme a2) (isIOS a2) (storage a2) (dataTheme a2) (themeColor a2)
          (statusBar a2) true (shown a2)).

(** The listener for changes of the system's colour scheme. *)
Definition on_system_change (matches : bool) (a : App) : bool * App :=
  if watching a then
    if negb (truthy (storage a !! KEY))
    then applyTheme (set_theme (if matches then "dark" else "light") a)
    else (false, a)
  else (false, a).

Definition toggleTheme (a : App) : bool * App :=
  let a1 :=
    set_theme (if String.eqb (theme a) "dark" then "light" else "dark") a in
  let '(threw, a2) := applyTheme a1 in
  if threw then (true, a2)
  else (false,
        mkApp (theme a2) (isIOS a2) (storage a2) (dataTheme a2) (themeColor a2)
          (statusBar a2) (watching a2)
          (shown a2 ++ ["Switched to " +:+ theme a2 +:+ " theme"])).

(** What happens to a running app: the theme is toggled, or the system's
    colour scheme changes. *)
Inductive Happening :=
| Toggle
| SystemChange (matches : bool).

Definition happen (a : App) (h : Happening) : App :=
  match h with
  | Toggle => snd (toggleTheme a)
  | SystemChange matches => snd (on_system_change matches a)
  end.

(** The page is loaded again: a new app object, with its constructor's
    theme, over the same storage and document. *)
Definition reload (a : App) : App :=
  mkApp "dark" (isIOS a) (storage a) (dataTheme a) (themeColor a)
    (statusBar a) false [].

(** A first visit with a light system, on a page with both meta
    elements. *)
Definition first_visit : App :=
  mkApp "dark" false ∅ None (Some "#000000") (Some "default") false [].

(** The stored theme is the current one, and it is not empty. *)
Definition persisted (a : App) : Prop :=
  storage a !! KEY = Some (theme a) /\ theme a <> "".

End Theme.

(** * Properties of the service worker *)

Import ServiceWorker.

(** ** Running promise chains *)

Ltac run :=
  cbv beta iota delta
    [then_ catch_ resolve reject ask get modify emit console_log
     console_error detach skipWaiting clients_claim caches_open caches_keys
     caches_delete caches_match cache_put cache_match cache_delete
     cache_keys fetch fetch_start fetch_settle].

Ltac proj :=
  cbn [fst snd caches trace pending clients set_caches set_trace
       set_pending].


(** A loop whose body never rejects runs to the end; the world it leaves
    is the fold of the body over the list. *)
Lemma for_of_total {A} (body : A -> M unit) env :
  (forall a w, fst (body a env w) = Fulfilled tt) ->
  forall xs w,
    for_of xs body env w
    = (Fulfilled tt, foldl (fun w' a => snd (body a env w')) w xs).
Proof.
  intros Hbody xs. induction xs as [|x xs IH]; intros w; [done|].
  simpl. unfold then_ at 1. specialize (Hbody x w).
  destruct (body x env w) as [r w1]. simpl in *. subst r. apply IH.
Qed.

(** ** Activation *)

Section Activation.

Lemma storage_lookup_delete name n cs :
  storage_lookup name (storage_delete n cs)
  = if String.eqb n name then None else storage_lookup name cs.
Proof.
  induction cs as [|[m c] cs IH]; simpl.
  - by destruct (String.eqb n name).
  - destruct (String.eqb m n) eqn:Hmn; simpl.
    + apply String.eqb_eq in Hmn as ->. rewrite IH.
      by destruct (String.eqb n name).
    + rewrite IH. destruct (String.eqb m name) eqn:Hm; [|done].
      apply String.eqb_eq in Hm as ->. by rewrite String.eqb_sym, Hmn.
Qed.

Lemma storage_lookup_delete_all name names cs :
  storage_lookup name (foldl (fun cs' n => storage_delete n cs') cs names)
  = if includes names name then None else storage_lookup name cs.
Proof.
  revert cs. induction names as [|n names IH]; intros cs; simpl; [done|].
  rewrite IH, storage_lookup_delete, (String.eqb_sym name n).
  destruct (String.eqb n name); simpl; [|done].
  by destruct (includes names name).
Qed.

Lemma delete_loop_caches names env w :
  caches (foldl (fun w' n => snd (delete_old n env w')) w names)
  = foldl (fun cs' n => storage_delete n cs') (caches w) names.
Proof.
  revert w. induction names as [|n names IH]; intros w; [done|].
  simpl. by rewrite IH.
Qed.

Lemma includes_filter_out (allow names : list string) name :
  includes (List.filter (fun n => negb (includes allow n)) names) name
  = negb (includes allow name) && includes names name.
Proof.
  induction names as [|n names IH]; simpl.
  - by rewrite andb_false_r.
  - destruct (includes allow n) eqn:Hn; simpl; rewrite IH.
    + destruct (String.eqb name n) eqn:E; simpl; [|done].
      apply String.eqb_eq in E as ->. by rewrite Hn.
    + destruct (String.eqb name n) eqn:E; simpl; [|done].
      apply String.eqb_eq in E as ->. by rewrite Hn.
Qed.

Lemma storage_lookup_absent name cs :
  includes (map fst cs) name = false -> storage_lookup name cs = None.
Proof.
  induction cs as [|[n c] cs IH]; simpl; [done|].
  rewrite String.eqb_sym. destruct (String.eqb n name); simpl; [done|]. apply IH.
Qed.

(** C8. Activation deletes every cache whose name is not in the allow-list
    of the current version and keeps every cache whose name is in it, with
    its entries as they were. *)
Theorem activate_keeps_exactly_current_caches env w name :
  storage_lookup name (caches (snd (on_activate env w)))
  = if includes currentCaches name then storage_lookup name (caches w)
    else None.
Proof.
  unfold on_activate. run.
  rewrite (for_of_total delete_old env) by done.
  run. proj. rewrite delete_loop_caches. proj.
  rewrite storage_lookup_delete_all, includes_filter_out.
  destruct (includes currentCaches name); simpl; [done|].
  destruct (includes (map fst (caches w)) name) eqn:Hin; [done|].
  by apply storage_lookup_absent.
Qed.

End Activation.

(** ** The router and the network-only strategy *)

Section Router.

Lemma prefix_app (a b s : string) :
  String.prefix (a +:+ b) s = true -> String.prefix a s = true.
Proof.
  revert s. induction a as [|c a IH]; intros s; [by destruct s|].
  destruct s as [|d s]; simpl; [done|].
  destruct (Ascii.ascii_dec c d); [apply IH | done].
Qed.

Lemma append_assoc (a b c : string) : (a +:+ b) +:+ c = a +:+ b +:+ c.
Proof.
  induction a as [|x a IH]; [reflexivity|].
  change (String x ((a +:+ b) +:+ c) = String x (a +:+ b +:+ c)).
  by rewrite IH.
Qed.

Lemma media_path_is_api_path p :
  startsWith p "/api/media/" = true -> startsWith p "/api/" = true.
Proof. unfold startsWith. apply (prefix_app "/api/" "media/"). Qed.

(** The branch for [/api/media/] comes after the branch for [/api/], which
    already took the request: the router never reaches the media strategy. *)
Lemma router_sends_media_to_api request env w :
  method request = "GET" ->
  startsWith (url request) "chrome-extension://" = false ->
  startsWith (pathname request) "/api/media/" = true ->
  on_fetch request env w = respondWith (handleApiRequest request) env w.
Proof.
  intros Hm Hx Hp. unfold on_fetch.
  by rewrite Hm, Hx, (media_path_is_api_path _ Hp).
Qed.

(** What the media strategy itself does on a hit: the cached response,
    no fetch, nothing written. *)
Lemma media_strategy_hit request env w r :
  storage_match (url request) (caches w) = Some r ->
  handleMediaRequest request env w
  = (Fulfilled (Some r),
     set_trace (trace w ++ [EvCacheRead (url request)]) w).
Proof.
  intros Hhit. unfold handleMediaRequest. run. proj. by rewrite Hhit.
Qed.

(** C1 (the code departs from the claim). A GET for [/api/media/7] whose
    response sits in the media cache is answered from the network: the
    router hands it to the network-only strategy, a fetch is made and the
    fresh response is returned, where the media strategy would have
    returned the cached one without any fetch. *)
Theorem media_request_bypasses_media_cache :
  entry MEDIA_CACHE (url media_request) media_hit_world = Some cached_media
  /\ on_fetch media_request (respond_with fresh_media) media_hit_world
     = respondWith (handleApiRequest media_request)
         (respond_with fresh_media) media_hit_world
  /\ fst (on_fetch media_request (respond_with fresh_media) media_hit_world)
     = RespondWith (Fulfilled (Some fresh_media))
  /\ trace (snd (on_fetch media_request (respond_with fresh_media)
                   media_hit_world))
     = [EvFetch media_request]
  /\ fst (handleMediaRequest media_request (respond_with fresh_media)
            media_hit_world)
     = Fulfilled (Some cached_media).
Proof. repeat split; vm_compute; reflexivity. Qed.

(** C6. A GET under [/api/] is answered by the network-only strategy: the
    cache storage is left as it was, nothing is read from or written to
    it, no write is left pending, whatever the status of the response;
    when the fetch fails the answer is the synthesized response with
    status 503, [Cache-Control: no-store] and the JSON body
    [{error, offline: true, timestamp}]. *)
Theorem api_request_is_network_only request env w :
  method request = "GET" ->
  startsWith (url request) "chrome-extension://" = false ->
  startsWith (pathname request) "/api/" = true ->
  caches (snd (on_fetch request env w)) = caches w
  /\ pending (snd (on_fetch request env w)) = pending w
  /\ (exists evs,
        trace (snd (on_fetch request env w)) = trace w ++ evs
        /\ forallb (fun e => negb (touches_cache e)) evs = true)
  /\ fst (on_fetch request env w)
     = RespondWith (Fulfilled (Some
         match network env request with
         | Fulfilled response => response
         | Rejected _ => offline_api_response env
         end))
  /\ status (offline_api_response env) = 503
  /\ headers_get "Cache-Control" (headers (offline_api_response env))
     = Some "no-store"
  /\ body (offline_api_response env)
     = "{" +:+ dq +:+ "error" +:+ dq +:+ ":" +:+ dq +:+ "You are offline"
       +:+ dq +:+ "," +:+ dq +:+ "offline" +:+ dq +:+ ":true," +:+ dq
       +:+ "timestamp" +:+ dq +:+ ":" +:+ dq
       +:+ toISOString env (clock env) +:+ dq +:+ "}".
Proof.
  intros Hm Hx Hp. unfold on_fetch. rewrite Hm, Hx, Hp.
  change (negb (String.eqb "GET" "GET") || false) with false. cbv iota.
  unfold respondWith, handleApiRequest. run.
  assert (body (offline_api_response env)
          = "{" +:+ dq +:+ "error" +:+ dq +:+ ":" +:+ dq +:+ "You are offline"
            +:+ dq +:+ "," +:+ dq +:+ "offline" +:+ dq +:+ ":true," +:+ dq
            +:+ "timestamp" +:+ dq +:+ ":" +:+ dq
            +:+ toISOString env (clock env) +:+ dq +:+ "}") as Hbody.
  { unfold offline_api_response, quoted. cbn [body].
    by rewrite !append_assoc. }
  destruct (network env request) as [response|error]; proj.
  - repeat split; try done. by exists [EvFetch request].
  - repeat split; try done.
    exists [EvFetch request;
            EvError "[Service Worker] API request failed:" error].
    by rewrite <- app_assoc.
Qed.

Lemma api_request_is_network_only_witness :
  caches (snd (on_fetch api_request offline media_hit_world))
  = caches media_hit_world
  /\ fst (on_fetch api_request offline media_hit_world)
     = RespondWith (Fulfilled (Some (offline_api_response offline))).
Proof.
  destruct (api_request_is_network_only api_request offline media_hit_world)
    as (Hc & _ & _ & Hr & _); [reflexivity | reflexivity | reflexivity |].
  split; [exact Hc | exact Hr].
Defined.

End Router.

(** ** Cache storage after a detached write *)

Section Storage.

Lemma storage_lookup_update n2 n f cs :
  storage_lookup n2 (storage_update n f cs)
  = if String.eqb n n2 then f <$> storage_lookup n cs
    else storage_lookup n2 cs.
Proof.
  induction cs as [|[m c] cs IH]; simpl.
  - by destruct (String.eqb n n2).
  - destruct (String.eqb m n) eqn:Hmn; simpl.
    + apply String.eqb_eq in Hmn as ->. by destruct (String.eqb n n2).
    + rewrite IH. destruct (String.eqb m n2) eqn:Hm2; [|done].
      apply String.eqb_eq in Hm2 as ->.
      by rewrite String.eqb_sym, Hmn.
Qed.

Lemma storage_lookup_app n cs cs' :
  storage_lookup n (cs ++ cs')
  = match storage_lookup n cs with
    | Some c => Some c
    | None => storage_lookup n cs'
    end.
Proof.
  induction cs as [|[m c] cs IH]; simpl; [done|].
  by destruct (String.eqb m n).
Qed.

Lemma storage_lookup_open n2 n cs :
  storage_lookup n2 (storage_open n cs)
  = match storage_lookup n2 cs with
    | Some c => Some c
    | None => if String.eqb n n2 then Some ∅ else None
    end.
Proof.
  unfold storage_open. destruct (storage_lookup n cs) as [c|] eqn:Hn.
  - destruct (storage_lookup n2 cs) eqn:H2; [done|].
    destruct (String.eqb n n2) eqn:E; [|done].
    apply String.eqb_eq in E as ->. congruence.
  - rewrite storage_lookup_app. simpl. by destruct (storage_lookup n2 cs).
Qed.

(** The detached [caches.open(n).then(c => c.put(k, r))], once it runs. *)
Lemma entry_after_put n2 k2 n k r env w :
  entry n2 k2 (snd (run_task (TaskCachePut n k r) env w))
  = if String.eqb n n2 && String.eqb k k2 then Some r else entry n2 k2 w.
Proof.
  unfold entry, run_task. run. proj.
  rewrite storage_lookup_update, !storage_lookup_open, String.eqb_refl.
  destruct (String.eqb n n2) eqn:En; simpl.
  - apply String.eqb_eq in En as <-.
    destruct (storage_lookup n (caches w)) as [c|]; simpl;
      destruct (String.eqb k k2) eqn:Ek;
      try (apply String.eqb_eq in Ek as <-; by rewrite lookup_insert_eq);
      apply String.eqb_neq in Ek; by rewrite lookup_insert_ne.
  - by destruct (storage_lookup n2 (caches w)).
Qed.

Lemma storage_open_cons m c n cs :
  String.eqb m n = false ->
  storage_open n ((m, c) :: cs) = (m, c) :: storage_open n cs.
Proof.
  intros Hmn. unfold storage_open. simpl. rewrite Hmn.
  by destruct (storage_lookup n cs).
Qed.

(** A key no cache held is found, after a put, as the response put. *)
Lemma storage_match_after_put key n r cs :
  storage_match key cs = None ->
  storage_match key (storage_update n (insert key r) (storage_open n cs))
  = Some r.
Proof.
  induction cs as [|[m c] cs IH]; intros Hmiss.
  - unfold storage_open. simpl. rewrite String.eqb_refl. simpl.
    by rewrite lookup_insert_eq.
  - simpl in Hmiss. destruct (c !! key) eqn:Hc; [done|].
    destruct (String.eqb m n) eqn:Hmn.
    + unfold storage_open. simpl. rewrite Hmn. simpl. rewrite Hmn. simpl.
      by rewrite lookup_insert_eq.
    + rewrite storage_open_cons by done. simpl. rewrite Hmn. simpl.
      rewrite Hc. by apply IH.
Qed.

End Storage.

(** ** Which responses the strategies write *)

Section Writes.

(** The page strategy schedules a write of whatever the network answered:
    it does not look at the status. *)
Lemma page_strategy_writes_any_status request env w response :
  network env request = Fulfilled response ->
  handlePageRequest request env w
  = (Fulfilled (Some response),
     set_pending
       (pending w ++ [TaskCachePut DYNAMIC_CACHE (url request) response])
       (set_trace (trace w ++ [EvFetch request]) w)).
Proof. intros Hnet. unfold handlePageRequest. run. by rewrite Hnet. Qed.

(** The media strategy schedules a write only for status 200. *)
Lemma media_strategy_writes_only_200 request env w :
  exists ts,
    pending (snd (handleMediaRequest request env w)) = pending w ++ ts
    /\ puts_only_200 ts = true.
Proof.
  unfold handleMediaRequest. run. proj.
  destruct (storage_match (url request) (caches w)); proj.
  { exists []. by rewrite app_nil_r. }
  destruct (network env request) as [response|error]; proj.
  - destruct (status response =? 200) eqn:Hs; proj.
    + exists [TaskCachePut MEDIA_CACHE (url request) response].
      split; [done|]. simpl. by rewrite Hs.
    + exists []. by rewrite app_nil_r.
  - destruct (String.eqb (destination request) "image"); proj;
      exists []; by rewrite app_nil_r.
Qed.

(** [fetchAndCache] schedules a write only for status 200. *)
Lemma fetchAndCache_then_writes_only_200 request response env w :
  exists ts,
    pending (snd (fetchAndCache_then request response env w)) = pending w ++ ts
    /\ puts_only_200 ts = true.
Proof.
  unfold fetchAndCache_then.
  destruct (status response =? 200) eqn:Hs; simpl; run; proj.
  - exists [TaskCachePut DYNAMIC_CACHE (url request) response].
    split; [done|]. simpl. by rewrite Hs.
  - exists []. by rewrite app_nil_r.
Qed.

(** C3 (the code departs from the claim). The page strategy persists a
    response whose status is 404: the write it detaches puts the response
    in the dynamic cache, where the media strategy and [fetchAndCache]
    write only on status 200. *)
Theorem page_strategy_caches_a_404 :
  status not_found = 404
  /\ fst (on_fetch page_request (respond_with not_found) empty_world)
     = RespondWith (Fulfilled (Some not_found))
  /\ pending (snd (on_fetch page_request (respond_with not_found) empty_world))
     = [TaskCachePut DYNAMIC_CACHE (url page_request) not_found]
  /\ entry DYNAMIC_CACHE (url page_request)
       (tick (respond_with not_found)
          (snd (on_fetch page_request (respond_with not_found) empty_world)))
     = Some not_found.
Proof. repeat split; vm_compute; reflexivity. Qed.

End Writes.

(** ** Navigation without network *)

Section Navigation.

Lemma router_page request env w :
  method request = "GET" ->
  startsWith (url request) "chrome-extension://" = false ->
  startsWith (pathname request) "/api/" = false ->
  mode request = "navigate" ->
  on_fetch request env w = respondWith (handlePageRequest request) env w.
Proof.
  intros Hm Hx Hp Hn. unfold on_fetch. rewrite Hm, Hx, Hp, Hn.
  destruct (startsWith (pathname request) "/api/media/") eqn:Hmedia; [|done].
  apply media_path_is_api_path in Hmedia. congruence.
Qed.

Lemma page_strategy_fallback request env w error :
  network env request = Rejected error ->
  handlePageRequest request env w
  = (Fulfilled
       match storage_match (url request) (caches w) with
       | Some r => Some r
       | None => storage_match (origin env +:+ "/offline") (caches w)
       end,
     set_trace
       (trace w
        ++ [EvFetch request;
            EvError "[Service Worker] Page fetch failed:" error;
            EvCacheRead (url request)]
        ++ match storage_match (url request) (caches w) with
           | Some _ => []
           | None => [EvCacheRead (origin env +:+ "/offline")]
           end) w).
Proof.
  intros Hnet. unfold handlePageRequest. run. rewrite Hnet. proj.
  destruct (storage_match (url request) (caches w)); proj;
    unfold set_trace; proj; by rewrite <- !app_assoc.
Qed.

(** A navigation that reaches the page strategy and whose fetch fails is
    answered with the cached response for its URL when there is one, and
    otherwise with whatever [caches.match('/offline')] finds, which is
    nothing when no cache holds that key. *)
Lemma navigation_fallback request env w error :
  method request = "GET" ->
  startsWith (url request) "chrome-extension://" = false ->
  startsWith (pathname request) "/api/" = false ->
  mode request = "navigate" ->
  network env request = Rejected error ->
  fst (on_fetch request env w)
  = RespondWith (Fulfilled
      match storage_match (url request) (caches w) with
      | Some r => Some r
      | None => storage_match (origin env +:+ "/offline") (caches w)
      end).
Proof.
  intros Hm Hx Hp Hn Hnet. rewrite router_page by done.
  unfold respondWith. by rewrite (page_strategy_fallback _ _ _ _ Hnet).
Qed.

End Navigation.

(** ** Static assets: the write is detached *)

Section StaticAssets.

Lemma router_static request env w :
  method request = "GET" ->
  startsWith (url request) "chrome-extension://" = false ->
  startsWith (pathname request) "/api/" = false ->
  String.eqb (mode request) "navigate" = false ->
  on_fetch request env w = respondWith (handleStaticRequest request) env w.
Proof.
  intros Hm Hx Hp Hn. unfold on_fetch. rewrite Hm, Hx, Hp, Hn.
  destruct (startsWith (pathname request) "/api/media/") eqn:Hmedia; [|done].
  apply media_path_is_api_path in Hmedia. congruence.
Qed.


Lemma static_strategy_hit request env w r :
  storage_match (url request) (caches w) = Some r ->
  handleStaticRequest request env w
  = (Fulfilled (Some r),
     set_pending (pending w ++ [TaskFetchAndCache request])
       (set_trace (trace w ++ [EvCacheRead (url request); EvFetch request]) w)).
Proof.
  intros Hhit. unfold handleStaticRequest, fetchAndCache_unawaited. run. proj.
  rewrite Hhit. unfold set_pending, set_trace. proj. by rewrite <- app_assoc.
Qed.




End StaticAssets.

(** ** Install *)

Section Install.

Lemma set_trace_nil w : set_trace (trace w ++ []) w = w.
Proof. destruct w. unfold set_trace. proj. by rewrite app_nil_r. Qed.

Lemma start_all env env' paths w :
  for_of paths (fun p => fetch_start (asset_request env p)) env' w
  = (Fulfilled tt,
     set_trace
       (trace w ++ map (fun p => EvFetch (asset_request env p)) paths) w).
Proof.
  revert w. induction paths as [|p paths IH]; intros w.
  - simpl. by rewrite set_trace_nil.
  - cbn [for_of map]. unfold then_ at 1. unfold fetch_start at 1. run.
    rewrite IH. unfold set_trace. proj. by rewrite <- app_assoc.
Qed.

(** One failing fetch makes the settling of the whole manifest reject,
    before anything is stored. *)
Lemma settle_all_fails env paths w :
  existsb (asset_fails env) paths = true ->
  exists error, settle_all paths env w = (Rejected error, w).
Proof.
  induction paths as [|p paths IH]; [done|].
  cbn [existsb settle_all]. unfold asset_fails at 1. intros Hfail. run.
  destruct (network env (asset_request env p)) as [r|error].
  - destruct (ok r); simpl in Hfail.
    + destruct (IH Hfail) as [error Herr]. rewrite Herr. by exists error.
    + by eexists.
  - by eexists.
Qed.

Lemma cache_addAll_fails name env paths w :
  existsb (asset_fails env) paths = true ->
  exists error,
    cache_addAll name paths env w
    = (Rejected error,
       set_trace
         (trace w ++ map (fun p => EvFetch (asset_request env p)) paths) w).
Proof.
  intros Hfail. unfold cache_addAll, then_ at 1 2 3, ask.
  rewrite start_all.
  match goal with |- context [settle_all paths env ?w'] =>
    destruct (settle_all_fails env paths w' Hfail) as [error Herr]
  end.
  rewrite Herr. by exists error.
Qed.

(** With a failing fetch the settling is caught: it stores nothing and
    is fulfilled. *)
Lemma install_settle_fails env w :
  existsb (asset_fails env) STATIC_ASSETS = true ->
  exists error,
    install_settle env w
    = (Fulfilled tt,
       set_trace
         (trace w
          ++ [EvError "[Service Worker] Cache installation failed:" error])
         w).
Proof.
  intros Hfail. unfold install_settle.
  cbv beta iota delta [then_ catch_ resolve console_log console_error emit
                       modify skipWaiting].
  destruct (settle_all_fails env STATIC_ASSETS w Hfail) as [error ->].
  by exists error.
Qed.

(** The first listener's chain is its beginning followed by its settling:
    nothing of the beginning can reject. *)
Lemma on_install_in_two_steps env w :
  on_install env w = install_settle env (snd (install_begin env w)).
Proof.
  unfold on_install, install_begin, install_settle, cache_addAll.
  cbv beta iota delta [then_ catch_ resolve ask console_log emit modify
                       caches_open skipWaiting].
  rewrite !start_all. proj.
  reflexivity.
Qed.

(** C2, as the code has it. When the fetch of a manifest path fails,
    [cache.addAll] stores nothing, the failure is logged and
    [skipWaiting] is not called; the listener catches the rejection, so
    the promise it gave to [waitUntil] is fulfilled and the install
    attempt does not fail. *)
Theorem install_failure_is_logged_and_caught env w :
  existsb (asset_fails env) STATIC_ASSETS = true ->
  fst (on_install env w) = Fulfilled tt
  /\ (exists error,
        trace (snd (on_install env w))
        = trace w
          ++ [EvLog "[Service Worker] Installing VantaVault v2.0...";
              EvLog "[Service Worker] Caching static assets"]
          ++ map (fun p => EvFetch (asset_request env p)) STATIC_ASSETS
          ++ [EvError "[Service Worker] Cache installation failed:" error])
  /\ (forall name key,
        entry name key (snd (on_install env w)) = entry name key w)
  /\ fst (install_attempt env w) = true.
Proof.
  intros Hfail.
  assert (exists error,
    on_install env w
    = (Fulfilled tt,
       set_caches (storage_open STATIC_CACHE (caches w))
         (set_trace
            (trace w
             ++ [EvLog "[Service Worker] Installing VantaVault v2.0...";
                 EvLog "[Service Worker] Caching static assets"]
             ++ map (fun p => EvFetch (asset_request env p)) STATIC_ASSETS
             ++ [EvError "[Service Worker] Cache installation failed:" error])
            w))) as [error Hrun].
  { unfold on_install. run.
    match goal with |- context [cache_addAll ?n ?p env ?w'] =>
      destruct (cache_addAll_fails n env p w' Hfail) as [error Herr];
      rewrite Herr
    end.
    exists error. unfold set_caches, set_trace. proj.
    by rewrite <- !app_assoc. }
  rewrite Hrun. proj.
  split; [done|]. split; [by exists error|]. split.
  - intros name key. unfold entry. proj. rewrite storage_lookup_open.
    destruct (storage_lookup name (caches w)); [done|].
    by destruct (String.eqb STATIC_CACHE name).
  - unfold install_attempt.
    destruct (on_install_offline env (snd (install_begin env w)))
      as [r2 w2] eqn:Hput.
    assert (r2 = Fulfilled tt) as ->
      by (unfold on_install_offline in Hput; revert Hput; run; congruence).
    destruct (install_settle_fails env w2 Hfail) as [error' ->]. done.
Qed.

Lemma install_failure_is_logged_and_caught_witness :
  existsb (asset_fails offline) STATIC_ASSETS = true
  /\ fst (on_install offline empty_world) = Fulfilled tt
  /\ fst (install_attempt offline empty_world) = true.
Proof.
  split; [reflexivity|].
  destruct (install_failure_is_logged_and_caught offline empty_world)
    as (H1 & _ & _ & H4); [reflexivity|].
  split; [exact H1 | exact H4].
Defined.

(** C2 as stated fails: with every manifest fetch failing, both promises
    given to [waitUntil] are fulfilled and the install attempt succeeds. *)
Lemma install_succeeds_though_assets_fail :
  forallb (asset_fails offline) STATIC_ASSETS = true
  /\ fst (on_install offline empty_world) = Fulfilled tt
  /\ fst (install_attempt offline empty_world) = true.
Proof. repeat split; vm_compute; reflexivity. Qed.

(** *** An install whose fetches all succeed *)

Lemma settle_all_ok env paths w :
  existsb (asset_fails env) paths = false ->
  exists rs,
    settle_all paths env w = (Fulfilled rs, w)
    /\ Forall2 (fun p kr =>
                  fst kr = origin env +:+ p
                  /\ network env (asset_request env p) = Fulfilled (snd kr))
         paths rs.
Proof.
  induction paths as [|p paths IH]; [by exists []|].
  cbn [existsb settle_all]. unfold asset_fails at 1. intros Hok. run.
  destruct (network env (asset_request env p)) as [r|error] eqn:Hnet;
    [|done].
  destruct (ok r); [|done]. cbn [negb orb] in Hok.
  destruct (IH Hok) as (rs & -> & Hrs).
  exists ((origin env +:+ p, r) :: rs). split; [done|].
  by constructor.
Qed.

Lemma cache_put_total name key r env w :
  fst (cache_put name key r env w) = Fulfilled tt.
Proof. reflexivity. Qed.

Lemma cache_put_entry name key r k2 env w :
  entry name k2 (snd (cache_put name key r env w))
  = match storage_lookup name (caches w) with
    | Some _ => if String.eqb key k2 then Some r else entry name k2 w
    | None => None
    end.
Proof.
  unfold entry, cache_put. run. proj.
  rewrite storage_lookup_update, String.eqb_refl.
  destruct (storage_lookup name (caches w)) as [c|]; [|done].
  cbn [fmap option_fmap option_map].
  destruct (String.eqb key k2) eqn:Ek.
  - apply String.eqb_eq in Ek as <-. by rewrite lookup_insert_eq.
  - apply String.eqb_neq in Ek. by rewrite lookup_insert_ne.
Qed.

Lemma cache_put_keeps_cache name key r env w :
  is_Some (storage_lookup name (caches w)) ->
  is_Some (storage_lookup name (caches (snd (cache_put name key r env w)))).
Proof.
  intros [c Hc]. unfold cache_put. run. proj.
  rewrite storage_lookup_update, String.eqb_refl, Hc. by eexists.
Qed.

(** What [cache.addAll] stored under a key, when it stored every key
    once. *)
Lemma put_all_entry name env (rs : list (string * Response)) key r :
  forall w,
    is_Some (storage_lookup name (caches w)) ->
    (key, r) ∈ rs ->
    NoDup (map fst rs) ->
    entry name key
      (foldl (fun w' kr => snd (cache_put name (fst kr) (snd kr) env w')) w rs)
    = Some r.
Proof.
  induction rs as [|[k' r'] rs IH]; intros w Hopen Hin Hnd.
  - by apply elem_of_nil in Hin.
  - cbn [map fst] in Hnd. apply NoDup_cons in Hnd as [Hfresh Hnd].
    cbn [foldl fst snd].
    apply elem_of_cons in Hin as [Heq|Hin].
    + injection Heq as <- <-.
      assert (forall w0,
                entry name key
                  (foldl (fun w' kr =>
                            snd (cache_put name (fst kr) (snd kr) env w'))
                     w0 rs)
                = entry name key w0) as Hkeep.
      { clear IH Hnd. induction rs as [|[k2 r2] rs IH]; intros w0; [done|].
        cbn [foldl fst snd]. rewrite IH.
        - rewrite cache_put_entry.
          destruct (String.eqb k2 key) eqn:Ek.
          + apply String.eqb_eq in Ek as ->. exfalso. apply Hfresh.
            cbn [map fst]. by left.
          + unfold entry. by destruct (storage_lookup name (caches w0)).
        - intros Hin. apply Hfresh. cbn [map fst]. by right. }
      rewrite Hkeep, cache_put_entry. destruct Hopen as [c ->].
      by rewrite String.eqb_refl.
    + apply IH; [by apply cache_put_keeps_cache | done | done].
Qed.

(** When every fetch of the manifest succeeds, the install attempt
    succeeds and the static cache holds under [/offline] what the server
    answered for it: [cache.addAll] wrote over the inline page. *)
Lemma successful_install_stores_the_fetched_page env w r :
  existsb (asset_fails env) STATIC_ASSETS = false ->
  network env (asset_request env "/offline") = Fulfilled r ->
  fst (install_attempt env w) = true
  /\ entry STATIC_CACHE (origin env +:+ "/offline")
       (snd (install_attempt env w))
     = Some r.
Proof.
  intros Hok Hnet. unfold install_attempt.
  destruct (on_install_offline env (snd (install_begin env w)))
    as [r2 w2] eqn:Hput.
  assert (r2 = Fulfilled tt
          /\ is_Some (storage_lookup STATIC_CACHE (caches w2))) as [-> Hopen].
  { unfold on_install_offline in Hput. revert Hput. run. proj.
    intros [= <- <-]. split; [done|]. proj.
    rewrite storage_lookup_update, String.eqb_refl, storage_lookup_open.
    destruct (storage_lookup STATIC_CACHE _); by eexists. }
  unfold install_settle.
  cbv beta iota delta [then_ catch_ resolve console_log console_error emit
                       modify skipWaiting].
  destruct (settle_all_ok env STATIC_ASSETS w2 Hok) as (rs & -> & Hrs).
  rewrite (for_of_total
             (fun kr => cache_put STATIC_CACHE (fst kr) (snd kr)) env)
    by (intros; apply cache_put_total).
  proj. split; [done|].
  repeat match goal with
         | |- context [entry ?n ?k (set_trace ?t ?w0)] =>
             change (entry n k (set_trace t w0)) with (entry n k w0)
         end.
  apply put_all_entry; [done| |].
  - assert ("/offline" ∈ STATIC_ASSETS) as Hin
      by (apply list_elem_of_In; vm_compute; tauto).
    clear -Hrs Hin Hnet. induction Hrs as [|p [k r'] ps rs [Hk Hr] _ IH].
    + by apply elem_of_nil in Hin.
    + apply elem_of_cons in Hin as [<-|Hin].
      * cbn [fst snd] in *. subst k. rewrite Hnet in Hr.
        injection Hr as <-. by left.
      * right. by apply IH.
  - assert (map fst rs = map (String.append (origin env)) STATIC_ASSETS)
      as ->.
    { clear -Hrs. induction Hrs as [|p kr ps rs [Hk _] _ IH]; [done|].
      cbn [map]. by rewrite Hk, IH. }
    apply (NoDup_fmap_2 (String.append (origin env))).
    apply (bool_decide_unpack _). vm_compute. reflexivity.
Qed.

(** With a server that answers every manifest path, the page kept for
    offline navigations is the server's, not the inline one. *)
Lemma installed_online_keeps_the_servers_page :
  entry STATIC_CACHE "https://vault.example/offline" installed_online
  = Some server_offline_page
  /\ body server_offline_page <> OFFLINE_HTML.
Proof.
  split; [|discriminate].
  destruct (successful_install_stores_the_fetched_page serving empty_world
              server_offline_page) as [_ H]; [reflexivity | reflexivity |].
  exact H.
Qed.

End Install.

(** ** The janitor *)

Section Janitor.

Lemma sweep_entry_total name cutoff k env w :
  fst (sweep_entry name cutoff k env w) = Fulfilled tt.
Proof.
  unfold sweep_entry. run. proj.
  destruct (entry name k _) as [r|]; [|done].
  destruct (headers_get "date" (headers r)) as [h|]; [|done].
  destruct (String.eqb h ""); [done|]. run.
  destruct (Date_parse env h) as [d|]; [|done].
  by destruct (d <? cutoff).
Qed.

Lemma entry_delete n2 k2 n k w t :
  entry n2 k2
    (set_caches (storage_update n (delete k) (caches w)) (set_trace t w))
  = if String.eqb n n2 && String.eqb k k2 then None else entry n2 k2 w.
Proof.
  unfold entry. proj. rewrite storage_lookup_update.
  destruct (String.eqb n n2) eqn:En; simpl; [|done].
  apply String.eqb_eq in En as <-.
  destruct (storage_lookup n (caches w)) as [c|]; simpl.
  - destruct (String.eqb k k2) eqn:Ek.
    + apply String.eqb_eq in Ek as <-. by rewrite lookup_delete_eq.
    + apply String.eqb_neq in Ek. by rewrite lookup_delete_ne.
  - by destruct (String.eqb k k2).
Qed.

Lemma sweep_entry_entry name cutoff k env w n2 k2 :
  entry n2 k2 (snd (sweep_entry name cutoff k env w))
  = if String.eqb name n2 && String.eqb k k2
       && expired_entry env cutoff (entry name k w)
    then None else entry n2 k2 w.
Proof.
  unfold sweep_entry, expired_entry, expired. run. proj.
  change (entry name k (set_trace (trace w ++ [EvCacheRead k]) w))
    with (entry name k w).
  destruct (entry name k w) as [r|]; proj;
    [|by rewrite andb_false_r].
  destruct (headers_get "date" (headers r)) as [h|]; proj;
    [|by rewrite andb_false_r].
  destruct (String.eqb h ""); proj; [by rewrite andb_false_r|]. run.
  destruct (Date_parse env h) as [d|]; proj; [|by rewrite andb_false_r].
  destruct (d <? cutoff); proj; [|by rewrite andb_false_r].
  rewrite andb_true_r.
  match goal with |- context [set_caches _ (set_trace ?t (set_trace ?t0 w))] =>
    change (set_trace t (set_trace t0 w)) with (set_trace t w)
  end.
  apply entry_delete.
Qed.

Lemma sweep_loop name cutoff env ks w n2 k2 :
  entry n2 k2 (foldl (fun w' k => snd (sweep_entry name cutoff k env w')) w ks)
  = if String.eqb name n2 && includes ks k2
       && expired_entry env cutoff (entry name k2 w)
    then None else entry n2 k2 w.
Proof.
  revert w. induction ks as [|k ks IH]; intros w.
  - simpl. by rewrite andb_false_r.
  - cbn [foldl]. rewrite IH, !sweep_entry_entry. cbn [includes existsb].
    fold (includes ks k2). rewrite String.eqb_refl. cbn [andb].
    destruct (String.eqb name n2) eqn:En; cbn [andb]; [|done].
    apply String.eqb_eq in En as <-.
    rewrite (String.eqb_sym k2 k).
    destruct (String.eqb k k2) eqn:Ek; cbn [andb orb].
    + apply String.eqb_eq in Ek as <-.
      destruct (expired_entry env cutoff (entry name k w)) eqn:Hx.
      * cbn [expired_entry]. by rewrite andb_false_r.
      * rewrite Hx. by rewrite andb_false_r.
    + done.
Qed.

Lemma keys_include (c : Cache) k r :
  c !! k = Some r -> includes (map fst (map_to_list c)) k = true.
Proof.
  intros Hk. unfold includes. apply existsb_exists. exists k.
  split; [|apply String.eqb_refl].
  apply list_elem_of_In, list_elem_of_fmap. exists (k, r).
  split; [done|]. by apply elem_of_map_to_list.
Qed.

Lemma cleanup_partition_run name cutoff env w :
  cleanup_partition name cutoff env w
  = (Fulfilled tt, snd (cleanup_partition name cutoff env w)).
Proof.
  unfold cleanup_partition. run. proj.
  by rewrite (for_of_total _ env
             (fun a w0 => sweep_entry_total name cutoff a env w0)).
Qed.

Lemma cleanup_partition_entry name cutoff env w n2 k2 :
  entry n2 k2 (snd (cleanup_partition name cutoff env w))
  = if String.eqb name n2 && expired_entry env cutoff (entry name k2 w)
    then None else entry n2 k2 w.
Proof.
  unfold cleanup_partition. run. proj.
  rewrite (for_of_total _ env
             (fun a w0 => sweep_entry_total name cutoff a env w0)). proj.
  rewrite sweep_loop.
  destruct (String.eqb name n2) eqn:En; cbn [andb]; [|done].
  apply String.eqb_eq in En as <-.
  destruct (entry name k2 w) as [r|] eqn:He.
  - unfold entry in He.
    destruct (storage_lookup name (caches w)) as [c|]; [|done].
    by rewrite (keys_include c k2 r He).
  - cbn [expired_entry]. by rewrite andb_false_r.
Qed.

Lemma entry_set_trace n k t w : entry n k (set_trace t w) = entry n k w.
Proof. reflexivity. Qed.

Lemma entry_open_only n2 k2 n w :
  entry n2 k2 (set_caches (storage_open n (caches w)) w) = entry n2 k2 w.
Proof.
  unfold entry. proj. rewrite storage_lookup_open.
  destruct (storage_lookup n2 (caches w)); [done|].
  by destruct (String.eqb n n2).
Qed.

(** What a pass of the janitor leaves of every entry. *)
Lemma cleanupCache_entry env w n2 k2 :
  entry n2 k2 (snd (cleanupCache env w))
  = if String.eqb DYNAMIC_CACHE n2
       && expired_entry env (clock env - 7 * 24 * 60 * 60 * 1000)
            (entry DYNAMIC_CACHE k2 w)
    then None
    else if String.eqb MEDIA_CACHE n2
            && expired_entry env (clock env - 30 * 24 * 60 * 60 * 1000)
                 (entry MEDIA_CACHE k2 w)
    then None
    else entry n2 k2 w.
Proof.
  unfold cleanupCache. run.
  match goal with |- context [cleanup_partition DYNAMIC_CACHE ?c env ?w1] =>
    rewrite (cleanup_partition_run DYNAMIC_CACHE c env w1);
    pose proof (fun a b => cleanup_partition_entry DYNAMIC_CACHE c env w1 a b)
      as Hdyn;
    set (wd := snd (cleanup_partition DYNAMIC_CACHE c env w1)) in *
  end.
  cbv beta iota.
  match goal with |- context [cleanup_partition MEDIA_CACHE ?c env ?w2] =>
    rewrite (cleanup_partition_run MEDIA_CACHE c env w2);
    pose proof (fun a b => cleanup_partition_entry MEDIA_CACHE c env w2 a b)
      as Hmed;
    set (wm := snd (cleanup_partition MEDIA_CACHE c env w2)) in *
  end.
  cbv beta iota. proj. rewrite entry_set_trace, Hmed.
  rewrite !entry_open_only, !Hdyn, !entry_open_only, !entry_set_trace.
  change (String.eqb DYNAMIC_CACHE MEDIA_CACHE) with false. cbn [andb].
  destruct (String.eqb DYNAMIC_CACHE n2) eqn:Ed; cbn [andb].
  - apply String.eqb_eq in Ed as <-.
    change (String.eqb MEDIA_CACHE DYNAMIC_CACHE) with false. cbn [andb].
    done.
  - destruct (String.eqb MEDIA_CACHE n2) eqn:Em; cbn [andb]; done.
Qed.

(** C9. On a pass of the janitor an entry of the dynamic cache (window of
    7 days) or of the media cache (window of 30 days) whose [date] header
    is older than the window is deleted, one whose [date] header is not
    older than the window is kept, and one without a [date] header is
    kept. *)
Theorem janitor_deletes_dated_entries_past_the_window
    name days env w key r :
  (name = DYNAMIC_CACHE /\ days = 7) \/ (name = MEDIA_CACHE /\ days = 30) ->
  entry name key w = Some r ->
  let w' := snd (cleanupCache env w) in
  let window := days * 24 * 60 * 60 * 1000 in
  (forall h d,
      headers_get "date" (headers r) = Some h -> h <> "" ->
      Date_parse env h = Some d ->
      clock env - d > window -> entry name key w' = None)
  /\ (forall h d,
      headers_get "date" (headers r) = Some h ->
      Date_parse env h = Some d ->
      clock env - d <= window -> entry name key w' = Some r)
  /\ (headers_get "date" (headers r) = None -> entry name key w' = Some r).
Proof.
  intros Hname Hentry w' window. subst w'.
  assert (forall h d,
    headers_get "date" (headers r) = Some h -> Date_parse env h = Some d ->
    expired env (clock env - window) r
    = negb (String.eqb h "") && (d <? clock env - window)) as Hexp.
  { intros h d Hh Hd. unfold expired. rewrite Hh.
    destruct (String.eqb h ""); [done|]. by rewrite Hd. }
  assert (entry name key (snd (cleanupCache env w))
          = if expired env (clock env - window) r then None else Some r)
    as Hrun.
  { rewrite cleanupCache_entry. subst window.
    destruct Hname as [[-> ->]|[-> ->]].
    - rewrite String.eqb_refl, Hentry. cbn [andb expired_entry].
      destruct (expired env _ r); [done|].
      change (String.eqb MEDIA_CACHE DYNAMIC_CACHE) with false. done.
    - change (String.eqb DYNAMIC_CACHE MEDIA_CACHE) with false. cbn [andb].
      rewrite String.eqb_refl, Hentry. cbn [andb expired_entry].
      by destruct (expired env _ r). }
  rewrite Hrun. repeat split.
  - intros h d Hh Hne Hd Hold. rewrite (Hexp h d Hh Hd).
    apply String.eqb_neq in Hne. rewrite Hne. cbn [negb andb].
    assert ((d <? clock env - window) = true) as -> by (apply Z.ltb_lt; lia).
    done.
  - intros h d Hh Hd Hyoung. rewrite (Hexp h d Hh Hd).
    assert ((d <? clock env - window) = false) as ->
      by (apply Z.ltb_ge; lia).
    by rewrite andb_false_r.
  - intros Hnone. unfold expired. by rewrite Hnone.
Qed.

Lemma janitor_deletes_dated_entries_past_the_window_witness :
  entry DYNAMIC_CACHE "https://vault.example/old"
    (snd (cleanupCache offline janitor_world)) = None
  /\ entry DYNAMIC_CACHE "https://vault.example/recent"
       (snd (cleanupCache offline janitor_world)) = Some recent_page
  /\ entry DYNAMIC_CACHE "https://vault.example/undated"
       (snd (cleanupCache offline janitor_world)) = Some undated_page.
Proof.
  split; [|split].
  - destruct (janitor_deletes_dated_entries_past_the_window
                DYNAMIC_CACHE 7 offline janitor_world
                "https://vault.example/old" old_page) as (Hold & _ & _);
      [by left | reflexivity |].
    apply (Hold "Sat, 06 Dec 2025 00:00:00 GMT" 1764979200000);
      [reflexivity | discriminate | reflexivity | reflexivity].
  - destruct (janitor_deletes_dated_entries_past_the_window
                DYNAMIC_CACHE 7 offline janitor_world
                "https://vault.example/recent" recent_page) as (_ & Hnew & _);
      [by left | reflexivity |].
    apply (Hnew "Sat, 03 Jan 2026 00:00:00 GMT" 1767398400000);
      [reflexivity | reflexivity | discriminate].
  - destruct (janitor_deletes_dated_entries_past_the_window
                DYNAMIC_CACHE 7 offline janitor_world
                "https://vault.example/undated" undated_page) as (_ & _ & Hno);
      [by left | reflexivity |].
    apply Hno. reflexivity.
Defined.

End Janitor.

(** ** Background sync *)

Section Sync.

Lemma post_all m env cs w :
  for_of cs (fun c => emit (EvPostMessage c m)) env w
  = (Fulfilled tt,
     set_trace (trace w ++ map (fun c => EvPostMessage c m) cs) w).
Proof.
  revert w. induction cs as [|c cs IH]; intros w.
  - simpl. by rewrite set_trace_nil.
  - cbn [for_of map]. unfold then_ at 1. unfold emit at 1, modify at 1.
    rewrite IH. unfold set_trace. proj. by rewrite <- app_assoc.
Qed.

Lemma run_post m env w :
  run_task (TaskPostMessage m) env w
  = (Fulfilled tt,
     set_trace (trace w ++ map (fun c => EvPostMessage c m) (clients w)) w).
Proof. unfold run_task, then_ at 1, get. apply post_all. Qed.

Lemma run_task_clients t env w : clients (snd (run_task t env w)) = clients w.
Proof.
  destruct t as [n k r|req|m].
  - unfold run_task. run. done.
  - unfold run_task, fetchAndCache_then. run.
    destruct (network env req) as [r|e]; [|done].
    by destruct (status r =? 200).
  - by rewrite run_post.
Qed.

Lemma run_task_trace_grows t env w e :
  In e (trace w) -> In e (trace (snd (run_task t env w))).
Proof.
  intros He. destruct t as [n k r|req|m].
  - unfold run_task. run. proj. apply in_or_app. by left.
  - unfold run_task, fetchAndCache_then. run.
    destruct (network env req) as [r|err]; [|done].
    by destruct (status r =? 200).
  - rewrite run_post. proj. apply in_or_app. by left.
Qed.

Lemma run_all_clients env ts w :
  clients (foldl (fun w' t => snd (run_task t env w')) w ts) = clients w.
Proof.
  revert w. induction ts as [|t ts IH]; intros w; [done|].
  cbn [foldl]. by rewrite IH, run_task_clients.
Qed.

Lemma run_all_trace_grows env ts w e :
  In e (trace w) ->
  In e (trace (foldl (fun w' t => snd (run_task t env w')) w ts)).
Proof.
  revert w. induction ts as [|t ts IH]; intros w He; [done|].
  cbn [foldl]. by apply IH, run_task_trace_grows.
Qed.

(** A pending message reaches every client on the next turn. *)
Lemma tick_delivers env w m c :
  In (TaskPostMessage m) (pending w) -> In c (clients w) ->
  In (EvPostMessage c m) (trace (tick env w)).
Proof.
  unfold tick. change (clients w) with (clients (set_pending [] w)).
  generalize (set_pending [] w) as w0. generalize (pending w) as ts.
  induction ts as [|t ts IH]; intros w0 Hin Hc; [done|].
  cbn [foldl]. destruct Hin as [->|Hin].
  - apply run_all_trace_grows. rewrite run_post. proj.
    apply in_or_app. right. apply in_map_iff. by exists c.
  - apply IH; [done|]. by rewrite run_task_clients.
Qed.

(** The body of the loop of [syncPendingUploads], for whatever item it
    is given: with the helpers as they are nothing is sent or removed
    anywhere, the item is logged as synced and the success message with
    its identifier is handed to [sendMessageToClient]. *)
Lemma sync_upload_run upload env w :
  sync_upload upload env w
  = (Fulfilled tt,
     set_pending
       (pending w ++ [TaskPostMessage (UPLOAD_SYNC_SUCCESS (upload_id upload))])
       (set_trace
          (trace w
           ++ [EvLog ("[Service Worker] Upload synced: " +:+ upload_id upload)])
          w)).
Proof. reflexivity. Qed.

(** The body of the loop of [syncSettings], for whatever change it is
    given: the change is logged as synced and nothing is handed to
    [sendMessageToClient], which the function never calls. *)
Lemma sync_setting_run change env w :
  sync_setting change env w
  = (Fulfilled tt,
     set_trace
       (trace w
        ++ [EvLog ("[Service Worker] Setting synced: " +:+ change_key change)])
       w).
Proof. reflexivity. Qed.

(** The two loop bodies side by side, on a queued upload and a queued
    change: the upload is reported to every client on the next turn of the
    event loop, the change to nobody. *)
Lemma upload_body_notifies_and_setting_body_does_not :
  In (EvPostMessage "window-1" (UPLOAD_SYNC_SUCCESS "u1"))
    (trace (tick offline (snd (sync_upload upload_a offline empty_world))))
  /\ trace (tick offline (snd (sync_setting change_a offline empty_world)))
     = [EvLog "[Service Worker] Setting synced: theme"].
Proof.
  split; [|reflexivity].
  apply tick_delivers; [|by left].
  rewrite sync_upload_run. proj. by left.
Qed.





End Sync.

(** * Properties of the gallery's upload queue *)

Section UploadQueue.

Lemma filter_files_run files g :
  Gallery.filter_files files g
  = (List.filter (fun f => Gallery.isValidType f && Gallery.isValidSize f) files,
     Gallery.mkGallery (Gallery.uploadQueue g)
       (Gallery.notifications g ++ flat_map Gallery.rejections files)
       (Gallery.queueList g)).
Proof.
  revert g. induction files as [|f files IH]; intros g.
  - simpl. rewrite app_nil_r. by destruct g.
  - cbn [Gallery.filter_files List.filter flat_map].
    unfold Gallery.check_file. rewrite IH.
    unfold Gallery.rejections at 2, Gallery.showError, Gallery.showNotification.
    destruct (Gallery.isValidType f), (Gallery.isValidSize f);
      cbn [negb andb Gallery.uploadQueue Gallery.notifications
           Gallery.queueList app];
      by rewrite <- ?app_assoc.
Qed.

Lemma prefix_append (a b : string) : String.prefix a (a +:+ b) = true.
Proof.
  induction a as [|c a IH]; [by destruct b|].
  change (String.prefix (String c a) (String c (a +:+ b)) = true).
  cbn [String.prefix]. by destruct (Ascii.ascii_dec c c).
Qed.

(** C10. File selection appends to the upload queue exactly the files
    whose type starts with [image/] or [video/] and whose size is at most
    500*1024*1024 bytes, in their order, each pending with progress 0;
    every other file is left out of the queue and gets an error
    notification that starts with its name. *)
Theorem file_selection_enqueues_exactly_the_valid files g :
  Gallery.uploadQueue (Gallery.handleFileSelection files g)
  = Gallery.uploadQueue g
    ++ map (fun f => Gallery.mkItem f 0 "pending")
         (List.filter
            (fun f => (startsWith (Gallery.file_type f) "image/"
                       || startsWith (Gallery.file_type f) "video/")
                      && (Gallery.file_size f <=? 500 * 1024 * 1024))
            files)
  /\ Gallery.notifications (Gallery.handleFileSelection files g)
     = Gallery.notifications g ++ flat_map Gallery.rejections files
  /\ forall f,
       In f files ->
       (startsWith (Gallery.file_type f) "image/"
        || startsWith (Gallery.file_type f) "video/")
       && (Gallery.file_size f <=? 500 * 1024 * 1024) = false ->
       exists message,
         In (message, "error")
            (Gallery.notifications (Gallery.handleFileSelection files g))
         /\ startsWith message (Gallery.file_name f +:+ ": ") = true.
Proof.
  assert (Gallery.uploadQueue (Gallery.handleFileSelection files g)
          = Gallery.uploadQueue g
            ++ map Gallery.enqueue
                 (List.filter
                    (fun f => Gallery.isValidType f && Gallery.isValidSize f)
                    files)
          /\ Gallery.notifications (Gallery.handleFileSelection files g)
             = Gallery.notifications g ++ flat_map Gallery.rejections files)
    as [Hq Hn].
  { unfold Gallery.handleFileSelection. rewrite filter_files_run.
    destruct (List.filter _ files) as [|v vs]; simpl.
    - by rewrite app_nil_r.
    - done. }
  split; [exact Hq|]. split; [exact Hn|].
  intros f Hf Hbad. rewrite Hn.
  assert (exists message,
            In (message, "error") (Gallery.rejections f)
            /\ startsWith message (Gallery.file_name f +:+ ": ") = true)
    as (message & Hm & Hp).
  { unfold Gallery.rejections.
    change ((Gallery.isValidType f && Gallery.isValidSize f) = false) in Hbad.
    destruct (Gallery.isValidType f); cbn [negb].
    - destruct (Gallery.isValidSize f); [done|]. cbn [negb].
      exists (Gallery.file_name f +:+ ": File too large (max 500MB)").
      split; [by left|].
      change (Gallery.file_name f +:+ ": File too large (max 500MB)")
        with (Gallery.file_name f +:+ ": " +:+ "File too large (max 500MB)").
      rewrite <- append_assoc. apply prefix_append.
    - exists (Gallery.file_name f +:+ ": Invalid file type").
      split; [by left|].
      change (Gallery.file_name f +:+ ": Invalid file type")
        with (Gallery.file_name f +:+ ": " +:+ "Invalid file type").
      rewrite <- append_assoc. apply prefix_append. }
  exists message. split; [|exact Hp].
  apply in_or_app. right. apply in_flat_map. by exists f.
Qed.

Lemma file_selection_enqueues_exactly_the_valid_witness :
  Gallery.uploadQueue
    (Gallery.handleFileSelection
       [Gallery.photo; Gallery.document; Gallery.huge_movie; Gallery.movie]
       Gallery.empty_gallery)
  = [Gallery.mkItem Gallery.photo 0 "pending";
     Gallery.mkItem Gallery.movie 0 "pending"]
  /\ exists message,
       In (message, "error")
          (Gallery.notifications
             (Gallery.handleFileSelection
                [Gallery.photo; Gallery.document; Gallery.huge_movie;
                 Gallery.movie]
                Gallery.empty_gallery))
       /\ startsWith message (Gallery.file_name Gallery.huge_movie +:+ ": ")
          = true.
Proof.
  destruct (file_selection_enqueues_exactly_the_valid
              [Gallery.photo; Gallery.document; Gallery.huge_movie;
               Gallery.movie] Gallery.empty_gallery) as (Hq & _ & Hbad).
  split; [exact Hq|].
  apply (Hbad Gallery.huge_movie); [simpl; tauto | reflexivity].
Defined.

End UploadQueue.

(** * Further properties of the service worker *)

(** ** What a fetch event writes *)

Section FetchWrites.

Ltac no_task := exists []; split; [by rewrite app_nil_r | constructor].
Ltac one_task :=
  eexists [_]; split;
  [reflexivity
  | constructor;
    [first [by left | right; eexists; reflexivity] | constructor]].

(** X1. A fetch event never changes the cache storage before it answers:
    whatever the request, the storage is as before when the listener is
    done, and all it may leave behind is one detached task, either a write
    of the request's URL to the dynamic cache or the refresh of that
    request. *)
Theorem fetch_event_only_detaches_dynamic_writes request env w :
  caches (snd (on_fetch request env w)) = caches w
  /\ exists ts,
       pending (snd (on_fetch request env w)) = pending w ++ ts
       /\ Forall (fun t =>
            t = TaskFetchAndCache request
            \/ exists r, t = TaskCachePut DYNAMIC_CACHE (url request) r) ts.
Proof.
  unfold on_fetch.
  destruct (negb _ || _); [split; [done | no_task]|].
  destruct (startsWith (pathname request) "/api/") eqn:Hapi.
  { unfold respondWith, handleApiRequest. run.
    destruct (network env request); proj; (split; [done | no_task]). }
  destruct (startsWith (pathname request) "/api/media/") eqn:Hmedia.
  { apply media_path_is_api_path in Hmedia. congruence. }
  destruct (String.eqb (mode request) "navigate").
  - unfold respondWith, handlePageRequest. run.
    destruct (network env request); proj; [split; [done | one_task]|].
    destruct (storage_match (url request) (caches w)); proj;
      (split; [done | no_task]).
  - unfold respondWith, handleStaticRequest, fetchAndCache,
      fetchAndCache_unawaited, fetchAndCache_then. run. proj.
    destruct (storage_match (url request) (caches w)); proj;
      [split; [done | one_task]|].
    destruct (network env request) as [r|e]; proj; [|split; [done | no_task]].
    destruct (status r =? 200); cbn [negb]; run; proj;
      (split; [done | first [one_task | no_task]]).
Qed.

(** X2. A static-asset GET that is not cached while the network is down
    is answered with the plain-text response [Offline], status 503; the
    cache storage is not changed and nothing is left pending. *)
Theorem static_asset_offline_is_503 request env w error :
  method request = "GET" ->
  startsWith (url request) "chrome-extension://" = false ->
  startsWith (pathname request) "/api/" = false ->
  String.eqb (mode request) "navigate" = false ->
  storage_match (url request) (caches w) = None ->
  network env request = Rejected error ->
  fst (on_fetch request env w)
  = RespondWith (Fulfilled (Some
      (mkResponse 503 [("Content-Type", "text/plain")] "Offline")))
  /\ caches (snd (on_fetch request env w)) = caches w
  /\ pending (snd (on_fetch request env w)) = pending w.
Proof.
  intros Hm Hx Hp Hn Hmiss Hnet. rewrite router_static by done.
  unfold respondWith, handleStaticRequest, fetchAndCache. run. proj.
  by rewrite Hmiss, Hnet.
Qed.

Lemma static_asset_offline_is_503_witness :
  fst (on_fetch style_request offline empty_world)
  = RespondWith (Fulfilled (Some
      (mkResponse 503 [("Content-Type", "text/plain")] "Offline"))).
Proof.
  destruct (static_asset_offline_is_503 style_request offline empty_world
              "TypeError: Failed to fetch") as (H & _);
    [reflexivity | reflexivity | reflexivity | reflexivity | reflexivity
    | reflexivity |].
  exact H.
Defined.

End FetchWrites.

(** ** Only status 200 in the caches, as long as no page is handled *)

Section Only200.

Lemma puts_only_200_app ts ts' :
  puts_only_200 (ts ++ ts') = puts_only_200 ts && puts_only_200 ts'.
Proof. unfold puts_only_200. apply forallb_app. Qed.

Lemma run_task_keeps_200 t env w :
  (forall n k r, entry n k w = Some r -> status r = 200) ->
  puts_only_200 [t] = true ->
  (forall n k r, entry n k (snd (run_task t env w)) = Some r -> status r = 200)
  /\ exists ts,
       pending (snd (run_task t env w)) = pending w ++ ts
       /\ puts_only_200 ts = true.
Proof.
  intros Hw Ht. destruct t as [name key resp|req|m].
  - split.
    + intros n k r. rewrite entry_after_put.
      destruct (String.eqb name n && String.eqb key k); [|apply Hw].
      intros [= <-]. simpl in Ht. rewrite andb_true_r in Ht.
      by apply Z.eqb_eq.
    + exists []. split; [|done]. unfold run_task. run. proj.
      by rewrite app_nil_r.
  - unfold run_task. run.
    destruct (network env req) as [r|e]; proj.
    + destruct (fetchAndCache_then_writes_only_200 req r env w) as (ts & Hp & H2).
      assert (caches (snd (fetchAndCache_then req r env w)) = caches w) as Hc.
      { unfold fetchAndCache_then. by destruct (status r =? 200). }
      destruct (fetchAndCache_then req r env w) as [[r0|e0] w'];
        proj; simpl in Hp, Hc.
      * split; [|by exists ts]. intros n k r1. unfold entry. rewrite Hc.
        apply Hw.
      * split; [|by exists ts]. intros n k r1. unfold entry. rewrite Hc.
        apply Hw.
    + split; [done|]. exists []. by rewrite app_nil_r.
  - rewrite run_post. proj. split; [done|]. exists []. by rewrite app_nil_r.
Qed.

Lemma run_all_keeps_200 env ts w :
  only_200 w -> puts_only_200 ts = true ->
  only_200 (foldl (fun w' t => snd (run_task t env w')) w ts).
Proof.
  revert w. induction ts as [|t ts IH]; intros w Hw Hts; [done|].
  cbn [foldl]. change (t :: ts) with ([t] ++ ts) in Hts.
  rewrite puts_only_200_app in Hts. apply andb_true_iff in Hts as [Ht Hts].
  apply IH; [|done]. destruct Hw as [Hw Hp].
  destruct (run_task_keeps_200 t env w Hw Ht) as (He & ts' & Hp' & H2).
  split; [done|]. rewrite Hp', puts_only_200_app, Hp, H2. done.
Qed.

Lemma tick_keeps_200 env w : only_200 w -> only_200 (tick env w).
Proof.
  intros [Hw Hp]. unfold tick. apply run_all_keeps_200; [|done].
  split; [exact Hw | done].
Qed.

Lemma fetch_keeps_200 request env w :
  reaches_page request = false -> only_200 w ->
  only_200 (snd (on_fetch request env w)).
Proof.
  intros Hpage [Hw Hp]. unfold on_fetch. unfold reaches_page in Hpage.
  destruct (String.eqb (method request) "GET"); cbn [negb orb andb] in *;
    [|done].
  destruct (startsWith (url request) "chrome-extension://");
    cbn [negb orb andb] in *; [done|].
  destruct (startsWith (pathname request) "/api/") eqn:Hapi;
    cbn [negb andb] in *.
  { unfold respondWith, handleApiRequest. run.
    by destruct (network env request). }
  destruct (startsWith (pathname request) "/api/media/") eqn:Hmedia.
  { apply media_path_is_api_path in Hmedia. congruence. }
  rewrite Hpage.
  unfold respondWith, handleStaticRequest, fetchAndCache,
    fetchAndCache_unawaited, fetchAndCache_then. run. proj.
  destruct (storage_match (url request) (caches w)); proj.
  { split; [done|]. proj. by rewrite puts_only_200_app, Hp. }
  destruct (network env request) as [r|e]; proj; [|done].
  destruct (status r =? 200) eqn:Hs; cbn [negb]; run; proj; [|done].
  split; [done|]. proj. rewrite puts_only_200_app, Hp. simpl. by rewrite Hs.
Qed.

(** X3. As long as no request reaches the page strategy, the caches hold
    only responses of status 200: if every cached response and every
    pending write has status 200, this is still so after any sequence of
    fetch events that are not page navigations and of turns of the event
    loop, whatever the network answered. *)
Theorem only_200_is_kept_without_navigations es w :
  forallb (fun e => negb (is_navigation e)) es = true ->
  only_200 w ->
  only_200 (run_events es w).
Proof.
  unfold run_events. revert w.
  induction es as [|e es IH]; intros w Hes Hw; [done|].
  cbn [forallb] in Hes. apply andb_true_iff in Hes as [He Hes].
  cbn [foldl]. apply IH; [done|].
  destruct e as [env request|env]; cbn [handle_event].
  - apply fetch_keeps_200; [|done]. by apply negb_true_iff in He.
  - by apply tick_keeps_200.
Qed.

Lemma only_200_is_kept_without_navigations_witness :
  only_200
    (run_events
       [FetchEvent (respond_with not_found) style_request;
        Turn (respond_with not_found);
        FetchEvent (respond_with stylesheet) style_request;
        Turn (respond_with stylesheet);
        FetchEvent (respond_with newer_stylesheet) style_request;
        Turn (respond_with newer_stylesheet);
        Turn offline]
       empty_world).
Proof.
  apply only_200_is_kept_without_navigations; [reflexivity|].
  split; [|reflexivity]. intros name key r H. discriminate H.
Defined.

End Only200.

(** ** The background refresh *)

Section Refresh.

Lemma holder_lookup key n cs :
  holder key cs = Some n -> is_Some (storage_lookup n cs).
Proof.
  induction cs as [|[m c] cs IH]; [done|]. simpl.
  destruct (c !! key); [intros [= ->]; by rewrite String.eqb_refl|].
  intros H. destruct (String.eqb m n); [done | by apply IH].
Qed.

Lemma holder_match key n cs :
  holder key cs = Some n -> is_Some (storage_match key cs).
Proof.
  induction cs as [|[m c] cs IH]; [done|]. simpl.
  destruct (c !! key); [done | apply IH].
Qed.

Lemma storage_match_refreshed key n r' cs :
  holder key cs = Some n ->
  storage_match key (storage_update n (insert key r') cs) = Some r'.
Proof.
  induction cs as [|[m c] cs IH]; [done|]. simpl.
  destruct (c !! key) eqn:Hc.
  - intros [= ->]. rewrite String.eqb_refl. simpl. by rewrite lookup_insert_eq.
  - intros H. destruct (String.eqb m n); simpl.
    + by rewrite lookup_insert_eq.
    + rewrite Hc. by apply IH.
Qed.

Lemma served_before_dynamic_match key cs :
  served_before_dynamic key cs = true -> is_Some (storage_match key cs).
Proof.
  induction cs as [|[m c] cs IH]; [done|]. simpl.
  destruct (String.eqb m DYNAMIC_CACHE); [done|].
  destruct (c !! key); [done | apply IH].
Qed.

Lemma storage_match_stale key r' cs :
  served_before_dynamic key cs = true ->
  storage_match key
    (storage_update DYNAMIC_CACHE (insert key r')
       (storage_open DYNAMIC_CACHE cs))
  = storage_match key cs.
Proof.
  induction cs as [|[m c] cs IH]; [done|]. cbn [served_before_dynamic].
  destruct (String.eqb m DYNAMIC_CACHE) eqn:Hm; [done|].
  rewrite storage_open_cons by done. cbn [storage_update storage_match].
  rewrite Hm. cbn [storage_match].
  destruct (c !! key); [done | apply IH].
Qed.

(** What the storage is once the refresh started by a cache hit has
    fetched a response of status 200 and its write has run. *)
Lemma refresh_runs request env env' w r r' :
  method request = "GET" ->
  startsWith (url request) "chrome-extension://" = false ->
  startsWith (pathname request) "/api/" = false ->
  String.eqb (mode request) "navigate" = false ->
  storage_match (url request) (caches w) = Some r ->
  pending w = [] ->
  network env' request = Fulfilled r' ->
  status r' = 200 ->
  fst (on_fetch request env w) = RespondWith (Fulfilled (Some r))
  /\ caches (tick env' (tick env' (snd (on_fetch request env w))))
     = storage_update DYNAMIC_CACHE (insert (url request) r')
         (storage_open DYNAMIC_CACHE (caches w)).
Proof.
  intros Hm Hx Hp Hn Hhit Hpend Hnet Hs.
  rewrite router_static by done. unfold respondWith.
  rewrite (static_strategy_hit _ _ _ _ Hhit). proj. rewrite Hpend.
  split; [done|].
  unfold tick at 2. proj. cbn [app foldl].
  unfold run_task at 1, fetchAndCache_then. run. rewrite Hnet, Hs.
  cbn [Z.eqb Pos.eqb negb]. run. proj.
  unfold tick. proj. cbn [app foldl]. unfold run_task. run. proj. done.
Qed.

(** X4. Stale-while-revalidate works for what the dynamic cache serves: when
    the first cache holding a static asset is the dynamic cache, a request
    is answered with the cached copy, and once the refresh has fetched a
    response of status 200 and its write has run, the next request is
    answered with that newer response. *)
Theorem refresh_replaces_the_dynamic_copy request env env' env'' w r' :
  method request = "GET" ->
  startsWith (url request) "chrome-extension://" = false ->
  startsWith (pathname request) "/api/" = false ->
  String.eqb (mode request) "navigate" = false ->
  holder (url request) (caches w) = Some DYNAMIC_CACHE ->
  pending w = [] ->
  network env' request = Fulfilled r' ->
  status r' = 200 ->
  fst (on_fetch request env w)
  = RespondWith (Fulfilled (storage_match (url request) (caches w)))
  /\ fst (on_fetch request env''
            (tick env' (tick env' (snd (on_fetch request env w)))))
     = RespondWith (Fulfilled (Some r')).
Proof.
  intros Hm Hx Hp Hn Hh Hpend Hnet Hs.
  destruct (holder_match _ _ _ Hh) as [r Hhit].
  destruct (refresh_runs request env env' w r r') as (Hfirst & Hc);
    try done.
  rewrite Hhit. split; [done|].
  rewrite router_static by done. unfold respondWith.
  assert (storage_match (url request)
            (caches (tick env' (tick env' (snd (on_fetch request env w)))))
          = Some r') as Hnew.
  { rewrite Hc. destruct (holder_lookup _ _ _ Hh) as [c Hl].
    unfold storage_open. rewrite Hl. by apply storage_match_refreshed. }
  by rewrite (static_strategy_hit _ _ _ _ Hnew).
Qed.

Lemma refresh_replaces_the_dynamic_copy_witness :
  fst (on_fetch style_request offline revisited_world)
  = RespondWith (Fulfilled (Some stylesheet))
  /\ fst (on_fetch style_request offline
            (tick (respond_with newer_stylesheet)
               (tick (respond_with newer_stylesheet)
                  (snd (on_fetch style_request offline revisited_world)))))
     = RespondWith (Fulfilled (Some newer_stylesheet)).
Proof.
  apply (refresh_replaces_the_dynamic_copy style_request offline
           (respond_with newer_stylesheet) offline revisited_world
           newer_stylesheet); reflexivity.
Defined.

(** X5. A precached asset is never refreshed for the reader: when the first
    cache holding a static asset comes before the dynamic cache (as the
    static cache filled at install does), the refresh writes the newer
    response to the dynamic cache, and the next request is still answered
    with the old copy. *)
Theorem precached_copy_is_served_after_refresh request env env' env'' w r' :
  method request = "GET" ->
  startsWith (url request) "chrome-extension://" = false ->
  startsWith (pathname request) "/api/" = false ->
  String.eqb (mode request) "navigate" = false ->
  served_before_dynamic (url request) (caches w) = true ->
  pending w = [] ->
  network env' request = Fulfilled r' ->
  status r' = 200 ->
  entry DYNAMIC_CACHE (url request)
    (tick env' (tick env' (snd (on_fetch request env w)))) = Some r'
  /\ fst (on_fetch request env''
            (tick env' (tick env' (snd (on_fetch request env w)))))
     = fst (on_fetch request env w)
  /\ fst (on_fetch request env w)
     = RespondWith (Fulfilled (storage_match (url request) (caches w))).
Proof.
  intros Hm Hx Hp Hn Hb Hpend Hnet Hs.
  destruct (served_before_dynamic_match _ _ Hb) as [r Hhit].
  destruct (refresh_runs request env env' w r r') as (Hfirst & Hc);
    try done.
  rewrite Hhit. split; [|split; [|done]].
  - unfold entry. rewrite Hc, storage_lookup_update, String.eqb_refl.
    rewrite storage_lookup_open, String.eqb_refl.
    destruct (storage_lookup DYNAMIC_CACHE (caches w)); simpl;
      by rewrite lookup_insert_eq.
  - rewrite Hfirst. rewrite router_static by done. unfold respondWith.
    assert (storage_match (url request)
              (caches (tick env' (tick env' (snd (on_fetch request env w)))))
            = Some r) as Hold.
    { rewrite Hc, storage_match_stale by done. done. }
    by rewrite (static_strategy_hit _ _ _ _ Hold).
Qed.

Lemma precached_copy_is_served_after_refresh_witness :
  entry DYNAMIC_CACHE (url style_request)
    (tick (respond_with newer_stylesheet)
       (tick (respond_with newer_stylesheet)
          (snd (on_fetch style_request offline precached_world))))
  = Some newer_stylesheet
  /\ fst (on_fetch style_request offline
            (tick (respond_with newer_stylesheet)
               (tick (respond_with newer_stylesheet)
                  (snd (on_fetch style_request offline precached_world)))))
     = RespondWith (Fulfilled (Some stylesheet)).
Proof.
  destruct (precached_copy_is_served_after_refresh style_request offline
              (respond_with newer_stylesheet) offline precached_world
              newer_stylesheet) as (He & Hsame & Hfirst); try reflexivity.
  split; [exact He|]. rewrite Hsame, Hfirst. reflexivity.
Defined.

End Refresh.

(** ** More on the janitor *)

Section JanitorAgain.

Lemma expired_after_sweep env cutoff o :
  expired_entry env cutoff
    (if expired_entry env cutoff o then None else o) = false.
Proof. by destruct (expired_entry env cutoff o) eqn:Hx. Qed.

(** X6. A pass of the janitor is idempotent: a second pass on the same
    host, right after the first, changes no entry of any cache. *)
Theorem janitor_pass_is_idempotent env w name key :
  entry name key (snd (cleanupCache env (snd (cleanupCache env w))))
  = entry name key (snd (cleanupCache env w)).
Proof.
  rewrite (cleanupCache_entry env (snd (cleanupCache env w))).
  rewrite !cleanupCache_entry.
  rewrite !String.eqb_refl.
  change (String.eqb DYNAMIC_CACHE MEDIA_CACHE) with false.
  change (String.eqb MEDIA_CACHE DYNAMIC_CACHE) with false.
  cbn [andb]. rewrite !expired_after_sweep, !andb_false_r. done.
Qed.

Lemma cleanupCache_total env w : fst (cleanupCache env w) = Fulfilled tt.
Proof.
  unfold cleanupCache. run.
  match goal with |- context [cleanup_partition DYNAMIC_CACHE ?c env ?w1] =>
    rewrite (cleanup_partition_run DYNAMIC_CACHE c env w1)
  end.
  cbv beta iota.
  match goal with |- context [cleanup_partition MEDIA_CACHE ?c env ?w2] =>
    rewrite (cleanup_partition_run MEDIA_CACHE c env w2)
  end.
  done.
Qed.

(** X7. The janitor only deletes, and only in the dynamic and the media
    cache: its promise is always fulfilled, an entry found after a pass
    was there before with the same response, and the entries of every
    other cache (the static cache among them) are as before. *)
Theorem janitor_only_deletes_dynamic_and_media env w :
  fst (cleanupCache env w) = Fulfilled tt
  /\ (forall name key r,
        entry name key (snd (cleanupCache env w)) = Some r ->
        entry name key w = Some r)
  /\ (forall name key,
        name <> DYNAMIC_CACHE -> name <> MEDIA_CACHE ->
        entry name key (snd (cleanupCache env w)) = entry name key w).
Proof.
  split; [apply cleanupCache_total|]. split.
  - intros name key r. rewrite cleanupCache_entry.
    destruct (_ && _); [done|]. by destruct (_ && _).
  - intros name key Hd Hm. rewrite cleanupCache_entry.
    apply not_eq_sym, String.eqb_neq in Hd, Hm. by rewrite Hd, Hm.
Qed.

Lemma janitor_only_deletes_dynamic_and_media_witness :
  entry STATIC_CACHE (url style_request)
    (snd (cleanupCache offline precached_world))
  = Some stylesheet.
Proof.
  destruct (janitor_only_deletes_dynamic_and_media offline precached_world)
    as (_ & _ & H).
  rewrite H; [reflexivity | discriminate | discriminate].
Defined.

(** X8. The janitor keeps, whatever the clock says, an entry of any cache
    whose [date] header is empty or does not parse to a date. *)
Theorem janitor_keeps_unreadable_dates env w name key r h :
  entry name key w = Some r ->
  headers_get "date" (headers r) = Some h ->
  h = "" \/ Date_parse env h = None ->
  entry name key (snd (cleanupCache env w)) = Some r.
Proof.
  intros He Hh Hbad.
  assert (forall cutoff, expired env cutoff r = false) as Hx.
  { intros cutoff. unfold expired. rewrite Hh.
    destruct Hbad as [->|Hnan]; [done|].
    destruct (String.eqb h ""); [done|]. by rewrite Hnan. }
  rewrite cleanupCache_entry.
  destruct (String.eqb DYNAMIC_CACHE name) eqn:Ed; cbn [andb].
  - apply String.eqb_eq in Ed as <-. rewrite He. cbn [expired_entry].
    rewrite Hx.
    change (String.eqb MEDIA_CACHE DYNAMIC_CACHE) with false. done.
  - destruct (String.eqb MEDIA_CACHE name) eqn:Em; cbn [andb]; [|done].
    apply String.eqb_eq in Em as <-. rewrite He. cbn [expired_entry].
    by rewrite Hx.
Qed.

Lemma janitor_keeps_unreadable_dates_witness :
  entry DYNAMIC_CACHE "https://vault.example/odd"
    (snd (cleanupCache offline
            (with_caches
               [(DYNAMIC_CACHE,
                 {[ "https://vault.example/odd" := broken_date_page ]})])))
  = Some broken_date_page.
Proof.
  apply (janitor_keeps_unreadable_dates offline _ DYNAMIC_CACHE
           "https://vault.example/odd" broken_date_page "yesterday-ish");
    [reflexivity | reflexivity | right; reflexivity].
Defined.

End JanitorAgain.

(** ** Clearing and measuring the caches *)

Section CacheInfo.

Lemma delete_everything names cs :
  (forall p, In p cs -> includes names (fst p) = true) ->
  foldl (fun cs' n => storage_delete n cs') cs names = [].
Proof.
  revert cs. induction names as [|n names IH]; intros cs Hall.
  - destruct cs as [|p cs]; [done|]. by specialize (Hall p (or_introl eq_refl)).
  - cbn [foldl]. apply IH. intros p Hp.
    unfold storage_delete in Hp. apply filter_In in Hp as [Hp Hne].
    specialize (Hall p Hp). cbn [includes existsb] in Hall.
    apply negb_true_iff in Hne. rewrite Hne in Hall. exact Hall.
Qed.

Lemma clear_loop_caches names env w :
  caches (foldl (fun w' n => snd (caches_delete n env w')) w names)
  = foldl (fun cs' n => storage_delete n cs') (caches w) names.
Proof.
  revert w. induction names as [|n names IH]; intros w; [done|].
  cbn [foldl]. by rewrite IH.
Qed.

Lemma own_names_included (cs : list (string * Cache)) p :
  In p cs -> includes (map fst cs) (fst p) = true.
Proof.
  intros Hp. apply existsb_exists. exists (fst p).
  split; [by apply in_map | apply String.eqb_refl].
Qed.

Lemma clearCache_caches env w : caches (snd (clearCache env w)) = [].
Proof.
  unfold clearCache. run.
  rewrite (for_of_total caches_delete env) by done.
  cbv beta iota. proj. rewrite clear_loop_caches.
  apply delete_everything, own_names_included.
Qed.

Lemma size_loop name c env (l : list (string * Response)) :
  (forall k r, In (k, r) l -> c !! k = Some r) ->
  forall acc w,
    storage_lookup name (caches w) = Some c ->
    exists w',
      for_fold (map fst l) (add_size name) acc env w
      = (Fulfilled (acc + foldr (fun kr a => blob_size (snd kr) + a) 0 l), w')
      /\ caches w' = caches w.
Proof.
  induction l as [|[k r] l IH]; intros Hl acc w Hc.
  - exists w. cbn [map for_fold foldr]. unfold resolve.
    by rewrite Z.add_0_r.
  - cbn [map for_fold foldr fst snd]. unfold then_ at 1.
    assert (add_size name acc k env w
            = (Fulfilled (acc + blob_size r),
               set_trace (trace w ++ [EvCacheRead k]) w)) as ->.
    { unfold add_size. run. proj. unfold entry. proj. rewrite Hc.
      by rewrite (Hl k r (or_introl eq_refl)). }
    destruct (IH (fun k' r' H => Hl k' r' (or_intror H))
                (acc + blob_size r)
                (set_trace (trace w ++ [EvCacheRead k]) w) Hc)
      as (w' & Hrun & Hw').
    exists w'. rewrite Hrun. split; [|done]. f_equal. f_equal. lia.
Qed.

Lemma calculateCacheSize_run name c env w :
  storage_lookup name (caches w) = Some c ->
  exists w',
    calculateCacheSize name env w = (Fulfilled (stats_size (stats_of c)), w')
    /\ caches w' = caches w.
Proof.
  intros Hc. unfold calculateCacheSize. run. proj. rewrite Hc.
  destruct (size_loop name c env (map_to_list c)) with (acc := 0) (w := w)
    as (w' & Hrun & Hw'); [|done|].
  - intros k r Hin. by apply elem_of_map_to_list, list_elem_of_In.
  - exists w'. by rewrite Hrun.
Qed.

Lemma add_info_run info name c env w :
  storage_lookup name (caches w) = Some c ->
  exists w',
    add_info info name env w
    = (Fulfilled (<[name := stats_of c]> info), w')
    /\ caches w' = caches w.
Proof.
  intros Hc. unfold add_info. run. proj.
  assert (storage_open name (caches w) = caches w) as Hopen.
  { unfold storage_open. by rewrite Hc. }
  rewrite Hopen.
  destruct (calculateCacheSize_run name c env
              (set_caches (caches w) w)) as (w' & Hrun & Hw'); [done|].
  rewrite Hrun. exists w'. rewrite Hc. split; [|done].
  unfold stats_of. by rewrite length_map.
Qed.

Lemma info_loop env names :
  forall info w,
    (forall n, In n names -> is_Some (storage_lookup n (caches w))) ->
    exists info' w',
      for_fold names add_info info env w = (Fulfilled info', w')
      /\ caches w' = caches w
      /\ forall name,
           info' !! name
           = if includes names name
             then stats_of <$> storage_lookup name (caches w)
             else info !! name.
Proof.
  induction names as [|n names IH]; intros info w Hall.
  - exists info, w. done.
  - destruct (Hall n (or_introl eq_refl)) as [c Hc].
    destruct (add_info_run info n c env w Hc) as (w1 & Hrun & Hw1).
    cbn [for_fold]. unfold then_ at 1. rewrite Hrun.
    destruct (IH (<[n := stats_of c]> info) w1) as (info' & w' & Hloop & Hw' & Hi).
    { intros m Hm. rewrite Hw1. apply Hall. by right. }
    exists info', w'. rewrite Hloop. split; [done|].
    split; [by rewrite Hw', Hw1|].
    intros name. rewrite Hi, Hw1. cbn [includes existsb].
    fold (includes names name).
    destruct (includes names name); [by rewrite orb_true_r|].
    rewrite orb_false_r.
    destruct (String.eqb name n) eqn:En.
    + apply String.eqb_eq in En as ->. by rewrite lookup_insert_eq, Hc.
    + apply String.eqb_neq in En. by rewrite lookup_insert_ne.
Qed.

Lemma storage_lookup_present n (cs : list (string * Cache)) :
  In n (map fst cs) -> is_Some (storage_lookup n cs).
Proof.
  induction cs as [|[m c] cs IH]; [done|]. simpl.
  intros [->|Hin]; [by rewrite String.eqb_refl|].
  destruct (String.eqb m n); [done | by apply IH].
Qed.

(** X9. [getCacheInfo] reports, for every cache and for no other name, the
    number of its entries and the sum of the sizes of their bodies, and
    leaves the cache storage as it was. *)
Theorem getCacheInfo_counts_every_cache env w :
  exists info,
    fst (getCacheInfo env w) = Fulfilled info
    /\ caches (snd (getCacheInfo env w)) = caches w
    /\ forall name,
         info !! name = stats_of <$> storage_lookup name (caches w).
Proof.
  unfold getCacheInfo. run. proj.
  destruct (info_loop env (map fst (caches w)) ∅ w) as (info & w' & Hrun & Hw' & Hi).
  { intros n. apply storage_lookup_present. }
  rewrite Hrun. exists info. split; [done|]. split; [done|].
  intros name. rewrite Hi, lookup_empty.
  destruct (includes (map fst (caches w)) name) eqn:Hin; [done|].
  by rewrite (storage_lookup_absent _ _ Hin).
Qed.

(** X10. [clearCache] deletes every cache, whatever their names: afterwards
    the cache storage is empty, [getCacheInfo] reports nothing and no
    request key matches. *)
Theorem clearCache_leaves_nothing env env' w :
  caches (snd (clearCache env w)) = []
  /\ fst (getCacheInfo env' (snd (clearCache env w))) = Fulfilled ∅
  /\ forall key, storage_match key (caches (snd (clearCache env w))) = None.
Proof.
  pose proof (clearCache_caches env w) as Hc.
  split; [done|]. split.
  - unfold getCacheInfo. run. proj. by rewrite Hc.
  - intros key. by rewrite Hc.
Qed.

End CacheInfo.

(** ** Navigation without network, and without the offline page *)

Section NavigationOffline.

(** C7. After a CLEAR_CACHE command no cache holds the offline page (no
    cache is left at all), and until the worker is installed again a
    navigation whose fetch fails gets no response: the handler's fallback
    is a lookup of [/offline] in the caches, not the page itself. *)
Theorem navigation_after_clear_gets_no_response request env env0 w error :
  method request = "GET" ->
  startsWith (url request) "chrome-extension://" = false ->
  startsWith (pathname request) "/api/" = false ->
  mode request = "navigate" ->
  network env request = Rejected error ->
  fst (on_fetch request env (snd (clearCache env0 w)))
  = RespondWith (Fulfilled None).
Proof.
  intros Hm Hx Hp Hn Hnet.
  rewrite (navigation_fallback _ _ _ error) by done.
  by rewrite clearCache_caches.
Qed.

Lemma navigation_after_clear_gets_no_response_witness :
  entry STATIC_CACHE "https://vault.example/offline" installed_offline
  = Some offline_response
  /\ fst (on_fetch page_request offline cleared_world)
     = RespondWith (Fulfilled None).
Proof.
  split; [reflexivity|].
  apply (navigation_after_clear_gets_no_response page_request offline offline
           installed_offline "TypeError: Failed to fetch"); reflexivity.
Defined.

(** After an install that fetched the whole manifest, the page a failed
    navigation falls back to is the one the server gave for [/offline]. *)
Lemma navigation_after_online_install_gets_the_servers_page :
  fst (on_fetch page_request offline installed_online)
  = RespondWith (Fulfilled (Some server_offline_page)).
Proof.
  rewrite (navigation_fallback _ _ _ "TypeError: Failed to fetch")
    by reflexivity.
  vm_compute. reflexivity.
Qed.

End NavigationOffline.

(** ** The media strategy on its own *)

Section MediaStrategy.

(** X11. The media strategy writes through: on a miss answered by the
    network with status 200 it returns that response and detaches its
    write to the media cache; once the write has run, the same request is
    answered from the cache with a single cache read and no fetch,
    whatever the network then does. *)
Theorem media_strategy_writes_through request env env' w r :
  storage_match (url request) (caches w) = None ->
  pending w = [] ->
  network env request = Fulfilled r ->
  status r = 200 ->
  fst (handleMediaRequest request env w) = Fulfilled (Some r)
  /\ entry MEDIA_CACHE (url request)
       (tick env (snd (handleMediaRequest request env w))) = Some r
  /\ handleMediaRequest request env'
       (tick env (snd (handleMediaRequest request env w)))
     = (Fulfilled (Some r),
        set_trace
          (trace (tick env (snd (handleMediaRequest request env w)))
           ++ [EvCacheRead (url request)])
          (tick env (snd (handleMediaRequest request env w)))).
Proof.
  intros Hmiss Hpend Hnet Hs.
  assert (handleMediaRequest request env w
          = (Fulfilled (Some r),
             set_pending [TaskCachePut MEDIA_CACHE (url request) r]
               (set_trace
                  (trace w ++ [EvCacheRead (url request); EvFetch request]) w)))
    as Hrun.
  { unfold handleMediaRequest. run. proj. rewrite Hmiss, Hnet, Hs.
    cbn [Z.eqb Pos.eqb]. run. unfold set_pending, set_trace. proj.
    by rewrite Hpend, <- app_assoc. }
  rewrite Hrun. proj. split; [done|].
  unfold tick. proj. cbn [foldl]. split.
  - by rewrite entry_after_put, !String.eqb_refl.
  - apply media_strategy_hit. unfold run_task. run. proj.
    by apply storage_match_after_put.
Qed.

Lemma media_strategy_writes_through_witness :
  entry MEDIA_CACHE (url media_request)
    (tick (respond_with fresh_media)
       (snd (handleMediaRequest media_request (respond_with fresh_media)
               empty_world)))
  = Some fresh_media.
Proof.
  destruct (media_strategy_writes_through media_request
              (respond_with fresh_media) offline empty_world fresh_media)
    as (_ & H & _);
    [reflexivity | reflexivity | reflexivity | reflexivity | exact H].
Defined.

(** X12. The media strategy offline: on a miss with the network down
    nothing is written or left pending; a request whose destination is an
    image is answered with whatever the caches hold for the icon
    [/static/icons/icon-192.svg] (nothing when it is not cached), any
    other request with the plain-text response of status 503. *)
Theorem media_strategy_offline_fallback request env w error :
  storage_match (url request) (caches w) = None ->
  network env request = Rejected error ->
  fst (handleMediaRequest request env w)
  = Fulfilled
      (if String.eqb (destination request) "image"
       then storage_match (origin env +:+ "/static/icons/icon-192.svg")
              (caches w)
       else Some (mkResponse 503 [("Content-Type", "text/plain")]
                    "Media unavailable offline"))
  /\ caches (snd (handleMediaRequest request env w)) = caches w
  /\ pending (snd (handleMediaRequest request env w)) = pending w.
Proof.
  intros Hmiss Hnet. unfold handleMediaRequest. run. proj.
  rewrite Hmiss, Hnet. proj.
  by destruct (String.eqb (destination request) "image").
Qed.

Lemma media_strategy_offline_fallback_witness :
  fst (handleMediaRequest media_request offline empty_world) = Fulfilled None.
Proof.
  destruct (media_strategy_offline_fallback media_request offline empty_world
              "TypeError: Failed to fetch") as (H & _);
    [reflexivity | reflexivity | exact H].
Defined.

End MediaStrategy.

(** * Further properties of the gallery *)

(** ** Removing from the upload queue *)

Section RemoveFromQueue.

Lemma selection_appends files g :
  Gallery.uploadQueue (Gallery.handleFileSelection files g)
  = Gallery.uploadQueue g
    ++ map Gallery.enqueue
         (List.filter
            (fun f => Gallery.isValidType f && Gallery.isValidSize f) files).
Proof.
  unfold Gallery.handleFileSelection. rewrite filter_files_run.
  destruct (List.filter _ files) as [|v vs]; simpl; [by rewrite app_nil_r|done].
Qed.

(** X13. Selecting one valid file and then removing the last queue entry,
    by its index or by the index -1, gives back the queue as it was. *)
Theorem select_then_remove_restores_the_queue f g index :
  Gallery.isValidType f && Gallery.isValidSize f = true ->
  index = Z.of_nat (length (Gallery.uploadQueue g)) \/ index = -1 ->
  Gallery.uploadQueue
    (Gallery.removeFromQueue index (Gallery.handleFileSelection [f] g))
  = Gallery.uploadQueue g.
Proof.
  intros Hok Hi. unfold Gallery.removeFromQueue, Gallery.updateUploadQueueUI.
  cbn [Gallery.uploadQueue]. rewrite selection_appends.
  cbn [List.filter]. rewrite Hok. cbn [map].
  unfold Gallery.splice_one. rewrite length_app. cbn [length].
  set (q := Gallery.uploadQueue g) in *.
  assert (Z.to_nat (if index <? 0
                    then Z.max (Z.of_nat (length q + 1) + index) 0
                    else Z.min index (Z.of_nat (length q + 1)))
          = length q) as ->.
  { destruct Hi as [->| ->].
    - assert ((Z.of_nat (length q) <? 0) = false) as ->
        by (apply Z.ltb_ge; lia).
      lia.
    - change (-1 <? 0) with true. cbv iota. lia. }
  rewrite take_app_length.
  rewrite drop_ge by (rewrite length_app; simpl; lia).
  by rewrite app_nil_r.
Qed.

Lemma select_then_remove_restores_the_queue_witness :
  Gallery.uploadQueue
    (Gallery.removeFromQueue (-1)
       (Gallery.handleFileSelection [Gallery.photo] Gallery.empty_gallery))
  = [].
Proof.
  apply (select_then_remove_restores_the_queue Gallery.photo
           Gallery.empty_gallery (-1)); [reflexivity | by right].
Defined.

(** X14. [removeFromQueue] with an index that is not negative removes the
    entry at that index and nothing else: the entries before it stay in
    place, those after it move up by one, and with an index at or past
    the end the queue is not changed; the queue drawn is the new queue. *)
Theorem remove_takes_out_one_entry index g :
  0 <= index ->
  let q := Gallery.uploadQueue g in
  let q' := Gallery.uploadQueue (Gallery.removeFromQueue index g) in
  (forall j, (j < Z.to_nat index)%nat -> q' !! j = q !! j)
  /\ (forall j, (Z.to_nat index <= j)%nat -> q' !! j = q !! S j)
  /\ (Z.of_nat (length q) <= index -> q' = q)
  /\ Gallery.queueList (Gallery.removeFromQueue index g) = q'.
Proof.
  intros Hi q q'. subst q'.
  unfold Gallery.removeFromQueue, Gallery.updateUploadQueueUI.
  cbn [Gallery.uploadQueue Gallery.queueList]. fold q.
  unfold Gallery.splice_one.
  assert ((index <? 0) = false) as -> by (apply Z.ltb_ge; lia).
  set (start := Z.to_nat (Z.min index (Z.of_nat (length q)))).
  assert (start = Nat.min (Z.to_nat index) (length q)) as Hstart
    by (subst start; lia).
  split; [|split; [|split; [|done]]].
  - intros j Hj. destruct (decide (j < length q)%nat) as [Hlt|Hge].
    + rewrite lookup_app_l by (rewrite length_take; lia).
      apply lookup_take_lt. lia.
    + rewrite !lookup_ge_None_2; [done | lia |].
      rewrite length_app, length_take, length_drop. lia.
  - intros j Hj. destruct (decide (S j < length q)%nat) as [Hlt|Hge].
    + rewrite lookup_app_r by (rewrite length_take; lia).
      rewrite length_take, lookup_drop. f_equal. lia.
    + rewrite !lookup_ge_None_2; [done | lia |].
      rewrite length_app, length_take, length_drop. lia.
  - intros Hpast. rewrite take_ge, drop_ge by lia. by rewrite app_nil_r.
Qed.

Lemma remove_takes_out_one_entry_witness :
  Gallery.uploadQueue
    (Gallery.removeFromQueue 0
       (Gallery.handleFileSelection [Gallery.photo; Gallery.movie]
          Gallery.empty_gallery))
  !! 0%nat
  = Some (Gallery.enqueue Gallery.movie).
Proof.
  destruct (remove_takes_out_one_entry 0
              (Gallery.handleFileSelection [Gallery.photo; Gallery.movie]
                 Gallery.empty_gallery)) as (_ & H & _); [done|].
  rewrite (H 0%nat); [reflexivity | simpl; lia].
Defined.

End RemoveFromQueue.

(** ** Uploading the queue *)

Section Uploads.

Import Gallery.

Local Abbreviation queue u := (uploadQueue (manager u)).

Lemma after_progress_keeps ps item :
  file (after_progress ps item) = file item
  /\ status (after_progress ps item) = status item.
Proof.
  unfold after_progress. revert item.
  induction ps as [|p ps IH]; intros item; [done|].
  cbn [foldl]. destruct (IH (mkItem (file item) p (status item))) as [-> ->].
  done.
Qed.

Lemma upload_from_done server folder :
  (forall n f d, settles (server n f d) <> NeverSettles) ->
  forall fuel i u,
    (length (queue u) <= i + fuel)%nat ->
    exists u',
      upload_from server folder [] fuel i u = Done u'
      /\ isUploading u' = isUploading u
      /\ currentFolder u' = currentFolder u
      /\ length (queue u') = length (queue u)
      /\ (forall j, (j < i)%nat -> queue u' !! j = queue u !! j)
      /\ (forall j item, (i <= j)%nat -> queue u !! j = Some item ->
            exists item', queue u' !! j = Some item' /\ settled_from item item')
      /\ sent u'
         = sent u
           ++ map (fun it => (file it, folder))
                (List.filter (fun it => negb (is_completed it))
                   (drop i (queue u))).
Proof.
  intros Hsettle fuel. induction fuel as [|fuel IH]; intros i u Hlen.
  - exists u. cbn [upload_from]. repeat split; try done.
    + intros j item Hj Hitem. apply lookup_lt_Some in Hitem. lia.
    + rewrite drop_ge by lia. simpl. by rewrite app_nil_r.
  - cbn [upload_from hd tl meanwhile foldl fst snd put_held set_held].
    fold (put_item i). destruct (queue u !! i) as [item|] eqn:Hi.
    2:{ exists u. apply lookup_ge_None in Hi. repeat split; try done.
        - intros j it Hj Hit. apply lookup_lt_Some in Hit. lia.
        - rewrite drop_ge by lia. simpl. by rewrite app_nil_r. }
    pose proof (lookup_lt_Some _ _ _ Hi) as Hlt.
    rewrite (drop_S _ _ _ Hi). cbn [List.filter].
    fold (is_completed item).
    destruct (is_completed item) eqn:Hc; cbn [negb].
    + destruct (IH (S i) u) as (u' & Hrun & Hf & Hd & Hl & Hb & Ha & Hs);
        [lia|].
      exists u'. repeat split; try done.
      * intros j Hj. apply Hb. lia.
      * intros j it Hj Hit. destruct (decide (j = i)) as [->|Hne].
        -- rewrite Hb by lia. exists item. rewrite Hi in Hit.
           injection Hit as <-. split; [done|]. split; [done|].
           by rewrite Hc.
        -- apply Ha; [lia | done].
    + set (x := server (length (sent (put_item i (with_status "uploading" item) u)))
                  (file item) folder).
      pose proof (Hsettle _ _ _ : settles x <> NeverSettles) as Hx.
      destruct (after_progress_keeps (percents_of x)
                  (with_status "uploading" item)) as [Hpf Hps].
      destruct (settles x) as [|msg|] eqn:Hsx; [| |done].
      * match goal with |- context [upload_from _ _ _ fuel (S i) ?un] =>
          set (un' := un)
        end.
        assert (length (queue un') = length (queue u)) as Hl1
          by (subst un'; simpl; by rewrite !length_insert).
        assert (queue un' !! i = Some (mkItem (file item) 100 "completed"))
          as Hi1.
        { subst un'. simpl. apply list_lookup_insert_eq.
          by rewrite !length_insert. }
        assert (forall j, j <> i -> queue un' !! j = queue u !! j) as Hj1.
        { intros j Hj. subst un'. simpl.
          by rewrite !list_lookup_insert_ne. }
        assert (drop (S i) (queue un') = drop (S i) (queue u)) as Hd1.
        { subst un'. simpl. by rewrite !drop_insert_lt by lia. }
        destruct (IH (S i) un') as (u' & Hrun & Hf & Hd & Hl & Hb & Ha & Hs);
          [lia|].
        exists u'. rewrite Hrun. repeat split; try done.
        -- by rewrite Hl.
        -- intros j Hj. rewrite Hb by lia. apply Hj1. lia.
        -- intros j it Hj Hit. destruct (decide (j = i)) as [->|Hne].
           ++ rewrite Hb by lia. rewrite Hi1. eexists. split; [done|].
              rewrite Hi in Hit. injection Hit as <-.
              split; [done|]. rewrite Hc. by left.
           ++ apply Ha; [lia|]. by rewrite Hj1.
        -- rewrite Hs, Hd1. subst un'. simpl. by rewrite <- app_assoc.
      * match goal with |- context [upload_from _ _ _ fuel (S i) ?un] =>
          set (un' := un)
        end.
        assert (length (queue un') = length (queue u)) as Hl1
          by (subst un'; simpl; by rewrite !length_insert).
        assert (queue un' !! i
                = Some (with_status "failed"
                          (after_progress (percents_of x)
                             (with_status "uploading" item)))) as Hi1.
        { subst un'. simpl. apply list_lookup_insert_eq.
          by rewrite !length_insert. }
        assert (forall j, j <> i -> queue un' !! j = queue u !! j) as Hj1.
        { intros j Hj. subst un'. simpl.
          by rewrite !list_lookup_insert_ne. }
        assert (drop (S i) (queue un') = drop (S i) (queue u)) as Hd1.
        { subst un'. simpl. by rewrite !drop_insert_lt by lia. }
        destruct (IH (S i) un') as (u' & Hrun & Hf & Hd & Hl & Hb & Ha & Hs);
          [lia|].
        exists u'. rewrite Hrun. repeat split; try done.
        -- by rewrite Hl.
        -- intros j Hj. rewrite Hb by lia. apply Hj1. lia.
        -- intros j it Hj Hit. destruct (decide (j = i)) as [->|Hne].
           ++ rewrite Hb by lia. rewrite Hi1. eexists. split; [done|].
              rewrite Hi in Hit. injection Hit as <-.
              split; [exact Hpf|]. rewrite Hc. by right.
           ++ apply Ha; [lia|]. by rewrite Hj1.
        -- rewrite Hs, Hd1. subst un'. simpl. by rewrite <- app_assoc.
Qed.

Lemma page_event_keeps e held u :
  isUploading (snd (page_event e held u)) = isUploading u
  /\ currentFolder (snd (page_event e held u)) = currentFolder u
  /\ sent (snd (page_event e held u)) = sent u.
Proof.
  destruct e as [|index|files]; cbn [page_event];
    [destruct (cleanups u)| |]; done.
Qed.

Lemma meanwhile_keeps es held u :
  isUploading (snd (meanwhile es held u)) = isUploading u
  /\ currentFolder (snd (meanwhile es held u)) = currentFolder u
  /\ sent (snd (meanwhile es held u)) = sent u.
Proof.
  unfold meanwhile. revert held u.
  induction es as [|e es IH]; intros held u; [done|].
  cbn [foldl fst snd].
  destruct (page_event_keeps e held u) as (H1 & H2 & H3).
  destruct (page_event e held u) as [held' u'] eqn:He. cbn [fst snd] in *.
  destruct (IH held' u') as (-> & -> & ->). done.
Qed.

Lemma set_held_keeps held item u :
  isUploading (set_held held item u) = isUploading u.
Proof. by destruct held. Qed.

Lemma put_held_keeps held item u :
  isUploading (put_held held item u) = isUploading u.
Proof. by destruct held. Qed.

(** The loop never touches the flag, whatever else runs on the page. *)
Lemma upload_from_flag server folder fuel :
  forall page i u,
    match upload_from server folder page fuel i u with
    | Done u' | Stuck u' => isUploading u' = isUploading u
    end.
Proof.
  induction fuel as [|fuel IH]; intros page i u; [done|].
  cbn [upload_from]. destruct (queue u !! i) as [item|]; [|done].
  destruct (String.eqb (status item) "completed"); [apply IH|].
  match goal with |- context [meanwhile ?es ?h ?u0] =>
    destruct (meanwhile_keeps es h u0) as (Hm & _ & _);
    destruct (meanwhile es h u0) as [held um]
  end.
  cbn [fst snd isUploading put_item render with_manager set_item] in *.
  destruct (settles _).
  - match goal with |- context [upload_from _ _ _ fuel (S i) ?un] =>
      specialize (IH (tl page) (S i) un);
      destruct (upload_from server folder (tl page) fuel (S i) un)
    end; by rewrite IH, !put_held_keeps.
  - match goal with |- context [upload_from _ _ _ fuel (S i) ?un] =>
      specialize (IH (tl page) (S i) un);
      destruct (upload_from server folder (tl page) fuel (S i) un)
    end; rewrite IH; cbn [isUploading render with_manager];
      by rewrite set_held_keeps, put_held_keeps.
  - by rewrite put_held_keeps.
Qed.

(** *** The object the loop holds *)

(** The place that is kept for the held object is where the object is:
    after a page event the queue has, at the new index, the item it had
    at the old one. *)
Lemma page_event_tracks e p p' u u' item :
  queue u !! p = Some item ->
  page_event e (Some p) u = (Some p', u') ->
  queue u' !! p' = Some item.
Proof.
  intros Hp. destruct e as [|index|files]; cbn [page_event].
  - destruct (cleanups u); [by intros [= <- <-]|].
    unfold filter_moves. rewrite Hp.
    destruct (is_completed item) eqn:Hc; [done|]. intros [= <- <-].
    cbn [cleanup_completed manager uploadQueue updateUploadQueueUI].
    pose proof (f_equal (List.filter (fun it => negb (is_completed it)))
                  (take_drop_middle (queue u) p item Hp)) as Hsplit.
    rewrite List.filter_app in Hsplit. cbn [List.filter] in Hsplit.
    rewrite Hc in Hsplit. cbn [negb] in Hsplit. rewrite <- Hsplit.
    rewrite lookup_app_r by lia. by rewrite Nat.sub_diag.
  - unfold splice_moves.
    set (r := Z.to_nat (if index <? 0
                        then Z.max (Z.of_nat (length (queue u)) + index) 0
                        else Z.min index (Z.of_nat (length (queue u))))).
    pose proof (lookup_lt_Some _ _ _ Hp) as Hlt.
    assert (queue (with_manager (removeFromQueue index (manager u)) u)
            = take r (queue u) ++ drop (S r) (queue u)) as Hq by done.
    destruct (length (queue u) <=? r)%nat eqn:Hout.
    { intros [= <- <-]. apply Nat.leb_le in Hout. rewrite Hq.
      rewrite take_ge, drop_ge, app_nil_r by lia. done. }
    apply Nat.leb_gt in Hout.
    destruct (r =? p)%nat eqn:Hrp; [done|]. apply Nat.eqb_neq in Hrp.
    destruct (r <? p)%nat eqn:Hless; intros [= <- <-]; rewrite Hq.
    + apply Nat.ltb_lt in Hless.
      rewrite lookup_app_r by (rewrite length_take; lia).
      rewrite length_take, lookup_drop, <- Hp. f_equal. lia.
    + apply Nat.ltb_ge in Hless.
      rewrite lookup_app_l by (rewrite length_take; lia).
      apply lookup_take_Some. split; [done | lia].
  - intros [= <- <-]. cbn [with_manager manager]. rewrite selection_appends.
    by apply lookup_app_l_Some.
Qed.

(** *** The loop's bound on its turns is never what stops it *)

Lemma page_event_length e held u :
  (length (queue (snd (page_event e held u)))
   <= length (queue u) + selected e)%nat.
Proof.
  destruct e as [|index|files]; cbn [page_event selected].
  - destruct (cleanups u); cbn [snd]; [lia|].
    cbn [cleanup_completed manager uploadQueue updateUploadQueueUI].
    pose proof (List.filter_length_le
                  (fun item => negb (is_completed item)) (queue u)). lia.
  - cbn [snd with_manager manager removeFromQueue updateUploadQueueUI
         uploadQueue].
    unfold splice_one. rewrite length_app, length_take, length_drop. lia.
  - cbn [snd with_manager manager]. rewrite selection_appends.
    rewrite length_app, length_map.
    pose proof (List.filter_length_le
                  (fun f => isValidType f && isValidSize f) files). lia.
Qed.

Lemma meanwhile_length es held u :
  (length (queue (snd (meanwhile es held u)))
   <= length (queue u) + list_sum (map selected es))%nat.
Proof.
  unfold meanwhile. revert held u.
  induction es as [|e es IH]; intros held u; [cbn; lia|].
  cbn [foldl fst snd map list_sum].
  pose proof (page_event_length e held u) as He.
  destruct (page_event e held u) as [held' u']. cbn [fst snd] in *.
  specialize (IH held' u').
  change (list_sum (selected e :: map selected es))
    with (selected e + list_sum (map selected es))%nat. lia.
Qed.

Lemma set_held_length held item u :
  length (queue (set_held held item u)) = length (queue u).
Proof.
  destruct held as [p|]; [|done].
  cbn [set_held set_item with_manager manager uploadQueue].
  apply length_insert.
Qed.

Lemma put_held_length held item u :
  length (queue (put_held held item u)) = length (queue u).
Proof.
  unfold put_held. cbn [render with_manager manager updateUploadQueueUI
                        uploadQueue].
  apply set_held_length.
Qed.

Lemma selected_during_split page :
  selected_during page
  = (list_sum (map selected (hd [] page)) + selected_during (tl page))%nat.
Proof. by destruct page. Qed.

(** With the turns that [processUploadQueue] allows, one more turn
    changes nothing: the loop ends because the index reaches the end of
    the queue, or because an upload never settles. *)
Lemma upload_from_more_fuel server folder fuel :
  forall page i u,
    (length (queue u) + selected_during page <= i + fuel)%nat ->
    upload_from server folder page (S fuel) i u
    = upload_from server folder page fuel i u.
Proof.
  induction fuel as [|fuel IH]; intros page i u Hfuel.
  - cbn [upload_from]. destruct (queue u !! i) as [item|] eqn:Hi; [|done].
    apply lookup_lt_Some in Hi. lia.
  - change (upload_from server folder page (S (S fuel)) i u)
      with (match queue u !! i with
            | None => Done u
            | Some item =>
                if String.eqb (status item) "completed"
                then upload_from server folder page (S fuel) (S i) u
                else
                  let uploading := with_status "uploading" item in
                  let u1 := put_item i uploading u in
                  let x := server (length (sent u1)) (file item) folder in
                  let u2 :=
                    mkUploader (manager u1) (isUploading u1) (currentFolder u1)
                      (sent u1 ++ [(file item, folder)]) (reloads u1)
                      (cleanups u1) in
                  let hu := meanwhile (hd [] page) (Some i) u2 in
                  let held := fst hu in
                  let progressed :=
                    after_progress (percents_of x) uploading in
                  let u3 := put_held held progressed (snd hu) in
                  match settles x with
                  | Resolves =>
                      upload_from server folder (tl page) (S fuel) (S i)
                        (put_held held (mkItem (file item) 100 "completed") u3)
                  | Rejects _ =>
                      let failed := with_status "failed" progressed in
                      let u4 := set_held held failed u3 in
                      let u5 :=
                        with_manager
                          (showError
                             ("Failed to upload " +:+ file_name (file item))
                             (manager u4)) u4 in
                      upload_from server folder (tl page) (S fuel) (S i)
                        (render u5)
                  | NeverSettles => Stuck u3
                  end
            end).
    cbn [upload_from]. destruct (queue u !! i) as [item|] eqn:Hi; [|done].
    destruct (String.eqb (status item) "completed");
      [apply IH; lia|].
    cbv zeta.
    match goal with |- context [meanwhile ?es ?h ?u0] =>
      pose proof (meanwhile_length es h u0) as Hlen;
      destruct (meanwhile es h u0) as [held um]
    end.
    cbn [fst snd] in *.
    cbn [manager uploadQueue put_item render set_item with_manager
         updateUploadQueueUI] in Hlen.
    rewrite length_insert in Hlen.
    rewrite (selected_during_split page) in Hfuel.
    destruct (settles _); [| |done].
    + apply IH. rewrite !put_held_length. lia.
    + apply IH.
      cbn [render with_manager manager updateUploadQueueUI uploadQueue
           showError showNotification].
      rewrite set_held_length, put_held_length. lia.
Qed.

Lemma upload_run server u :
  isUploading u = false ->
  (forall n f d, settles (server n f d) <> NeverSettles) ->
  exists u',
    processUploadQueue server [] u = Done u'
    /\ isUploading u' = false
    /\ currentFolder u' = currentFolder u
    /\ length (queue u') = length (queue u)
    /\ (forall i item, queue u !! i = Some item ->
          exists item', queue u' !! i = Some item' /\ settled_from item item')
    /\ sent u'
       = sent u
         ++ map (fun it => (file it, currentFolder u))
              (List.filter (fun it => negb (is_completed it)) (queue u)).
Proof.
  intros Hflag Hsettle. unfold processUploadQueue. rewrite Hflag. cbn [orb].
  change (selected_during []) with 0%nat. rewrite Nat.add_0_r.
  destruct (length (queue u) =? 0)%nat eqn:Hempty.
  - apply Nat.eqb_eq in Hempty. exists u.
    destruct (queue u) as [|it q] eqn:Hq; [|done].
    repeat split; try done. by rewrite app_nil_r.
  - destruct (upload_from_done server (currentFolder u) Hsettle
                (length (queue u)) 0 (render (with_uploading true u)))
      as (u3 & Hrun & Hf & Hd & Hl & _ & Ha & Hs); [simpl; lia|].
    change (currentFolder (render (with_uploading true u)))
      with (currentFolder u).
    change (queue (render (with_uploading true u))) with (queue u) in *.
    rewrite Hrun. simpl in Hf, Hd, Hs.
    assert (forall i item, queue u !! i = Some item ->
              exists item', queue u3 !! i = Some item' /\ settled_from item item')
      as Ha' by (intros i item Hi; apply (Ha i item); [lia | done]).
    destruct (existsb is_completed (queue (render (with_uploading false u3)))).
    + eexists. split; [reflexivity|]. simpl. by repeat split.
    + eexists. split; [reflexivity|]. simpl. by repeat split.
Qed.

(** X15. A run of [processUploadQueue] in which every upload settles and
    during which nothing else on the page touches the queue (no timer of
    an earlier run fires, nothing is removed or selected) returns with
    the flag down and the queue as long as before: a completed item is
    left alone and not sent again, every other item is sent once, to the
    current folder and in queue order, and ends completed with progress
    100 or failed, whatever happened to the others. *)
Theorem upload_run_settles_every_item server u :
  isUploading u = false ->
  (forall n f d, settles (server n f d) <> NeverSettles) ->
  exists u',
    processUploadQueue server [] u = Done u'
    /\ isUploading u' = false
    /\ length (queue u') = length (queue u)
    /\ (forall i item, queue u !! i = Some item ->
          exists item', queue u' !! i = Some item' /\ settled_from item item')
    /\ sent u'
       = sent u
         ++ map (fun it => (file it, currentFolder u))
              (List.filter (fun it => negb (is_completed it)) (queue u)).
Proof.
  intros Hflag Hsettle.
  destruct (upload_run server u Hflag Hsettle)
    as (u' & Hrun & Hf & _ & Hl & Ha & Hs).
  by exists u'.
Qed.

Lemma second_fails_settles n f d : settles (second_fails n f d) <> NeverSettles.
Proof. unfold second_fails. by destruct (n =? 1)%nat. Qed.

Lemma upload_run_settles_every_item_witness :
  exists u',
    processUploadQueue second_fails [] three_queued = Done u'
    /\ isUploading u' = false
    /\ map fst (sent u') = [photo; movie; photo].
Proof.
  destruct (upload_run_settles_every_item second_fails three_queued
              eq_refl second_fails_settles) as (u' & Hrun & Hf & _ & _ & Hs).
  exists u'. split; [exact Hrun|]. split; [exact Hf|]. by rewrite Hs.
Defined.

(** X16. An upload whose promise never settles (a [load] with status 200
    whose body is not JSON, an abort, a timeout) leaves the manager with
    its flag up for good: the run does not return, and every later call
    of [processUploadQueue] returns at once without touching anything,
    whatever the server would answer and whatever else runs on the page
    during either. *)
Theorem hung_upload_blocks_the_queue server server' page page' u u' :
  processUploadQueue server page u = Stuck u' ->
  isUploading u' = true
  /\ processUploadQueue server' page' u' = Done u'.
Proof.
  unfold processUploadQueue at 1.
  destruct (isUploading u || _); [done|].
  pose proof (upload_from_flag server (currentFolder (render (with_uploading true u)))
                (length (queue (render (with_uploading true u)))
                 + selected_during page) page 0
                (render (with_uploading true u))) as Hflag.
  destruct (upload_from _ _ _ _ _ _) as [u3|u3].
  - by destruct (existsb _ _).
  - intros [= <-]. simpl in Hflag. split; [done|].
    unfold processUploadQueue. by rewrite Hflag.
Qed.

Lemma hung_upload_blocks_the_queue_witness :
  isUploading stuck_uploader = true
  /\ processUploadQueue second_fails [[TimerFires]] stuck_uploader
     = Done stuck_uploader.
Proof.
  apply (hung_upload_blocks_the_queue garbled second_fails [] [[TimerFires]]
           three_queued).
  vm_compute. reflexivity.
Defined.

(** A page that is not quiet: when the timer of an earlier run fires
    during an upload, the completed items leave the queue, the items
    behind them move up, and the loop, which goes on with the next index,
    passes over the item that moved into the place it has just done.
    Here the second selected file is never sent and stays pending, where
    a run on a quiet page sends both. *)
Lemma timer_during_a_run_skips_an_item :
  match processUploadQueue accepting [[TimerFires]] selected_after_a_run with
  | Done u' =>
      queue u' = [mkItem movie 100 "completed"; mkItem photo 0 "pending"]
      /\ sent u' = [(photo, "default"); (movie, "default")]
  | Stuck _ => False
  end
  /\ match processUploadQueue accepting [] selected_after_a_run with
     | Done u' =>
         queue u'
         = [mkItem photo 100 "completed"; mkItem movie 100 "completed";
            mkItem photo 100 "completed"]
         /\ sent u'
            = [(photo, "default"); (movie, "default"); (photo, "default")]
     | Stuck _ => False
     end.
Proof. vm_compute. repeat split; reflexivity. Qed.

Lemma failed_are_not_completed (q : list QueueItem) :
  Forall (fun it => status it = "failed") q ->
  List.filter (fun it => negb (is_completed it)) q = q.
Proof.
  induction q as [|it q IH]; [done|]. intros Hq.
  apply Forall_cons in Hq as [Hst Hrest]. cbn [List.filter].
  unfold is_completed at 1. rewrite Hst. cbn [negb]. f_equal. by apply IH.
Qed.

(** X17. After a run in which every upload settled and the cleanup that
    follows it, the queue holds the failed items and nothing else; the
    next run sends each of them again, and nothing else.  Nothing else on
    the page touches the queue during the two runs. *)
Theorem failed_uploads_stay_and_are_retried server server' u :
  isUploading u = false ->
  (forall n f d, settles (server n f d) <> NeverSettles) ->
  (forall n f d, settles (server' n f d) <> NeverSettles) ->
  exists u' u'',
    processUploadQueue server [] u = Done u'
    /\ Forall (fun it => status it = "failed") (queue (cleanup_completed u'))
    /\ (forall it, In it (queue u') -> status it = "failed" ->
          In it (queue (cleanup_completed u')))
    /\ processUploadQueue server' [] (cleanup_completed u') = Done u''
    /\ sent u''
       = sent u'
         ++ map (fun it => (file it, currentFolder u))
              (queue (cleanup_completed u')).
Proof.
  intros Hflag Hsettle Hsettle'.
  destruct (upload_run server u Hflag Hsettle)
    as (u' & Hrun & Hf & Hd & Hl & Ha & Hs).
  assert (Forall (fun it => status it = "failed")
            (queue (cleanup_completed u'))) as Hfailed.
  { apply Forall_forall. intros it Hin. cbn in Hin.
    apply list_elem_of_In, filter_In in Hin as [Hin Hnc].
    apply list_elem_of_In, list_elem_of_lookup in Hin as [i Hi].
    destruct (queue u !! i) as [it0|] eqn:Hi0.
    2:{ apply lookup_ge_None in Hi0. apply lookup_lt_Some in Hi. lia. }
    destruct (Ha i it0 Hi0) as (it' & Hi' & _ & Hst).
    rewrite Hi in Hi'. injection Hi' as <-.
    apply negb_true_iff in Hnc. unfold is_completed in Hnc.
    destruct (is_completed it0) eqn:Hc0;
      [subst it0; unfold is_completed in Hc0; congruence|].
    destruct Hst as [[Hst _]|Hst]; [|done].
    rewrite Hst in Hnc. done. }
  destruct (upload_run server' (cleanup_completed u') Hf Hsettle')
    as (u'' & Hrun' & _ & _ & _ & _ & Hs').
  exists u', u''. split; [done|]. split; [done|]. split; [|split; [done|]].
  - intros it Hin Hst. cbn. apply filter_In. split; [done|].
    unfold is_completed. by rewrite Hst.
  - rewrite Hs'. f_equal. change (currentFolder (cleanup_completed u'))
      with (currentFolder u'). rewrite Hd. f_equal.
    by apply failed_are_not_completed.
Qed.

Lemma failed_uploads_stay_and_are_retried_witness :
  exists u' u'',
    processUploadQueue second_fails [] three_queued = Done u'
    /\ Forall (fun it => status it = "failed") (queue (cleanup_completed u'))
    /\ processUploadQueue second_fails [] (cleanup_completed u') = Done u''.
Proof.
  destruct (failed_uploads_stay_and_are_retried second_fails second_fails
              three_queued eq_refl second_fails_settles second_fails_settles)
    as (u' & u'' & Hrun & Hfailed & _ & Hrun' & _).
  by exists u', u''.
Defined.

End Uploads.

(** ** Names and dates on a tile *)

Section Tiles.

Lemma length_append (a b : string) :
  String.length (a +:+ b) = (String.length a + String.length b)%nat.
Proof.
  induction a as [|c a IH]; [done|].
  change (S (String.length (a +:+ b))
          = S (String.length a + String.length b)%nat).
  by rewrite IH.
Qed.

Lemma split_without_separator c s :
  Gallery.mentions c s = false -> Gallery.split c s = [s].
Proof.
  unfold Gallery.mentions.
  induction s as [|d s IH]; [done|]. cbn [existsb Gallery.split].
  intros H. apply orb_false_iff in H as [Hd Hs].
  rewrite N.eqb_sym, Hd, (IH Hs). done.
Qed.

(** X18. A file name longer than the limit whose extension (what follows
    its last dot) leaves room, that is with at most [maxLength - 4]
    characters, is cut to a name of exactly [maxLength + 1] characters:
    one more than the limit.  Lengths are counted as the code counts
    them, in UTF-16 code units. *)
Theorem truncated_name_is_one_over_the_limit filename maxLength :
  maxLength < Z.of_nat (length filename) ->
  Z.of_nat (length (Gallery.pop (Gallery.split Gallery.dot filename))) + 4
  <= maxLength ->
  Z.of_nat (length (Gallery.truncateFilename filename maxLength))
  = maxLength + 1.
Proof.
  intros Hlong Hext. unfold Gallery.truncateFilename.
  assert ((Z.of_nat (length filename) <=? maxLength) = false) as ->
    by (apply Z.leb_gt; lia).
  set (ext := Gallery.pop (Gallery.split Gallery.dot filename)) in *.
  unfold Gallery.substring0.
  rewrite !length_app, length_take.
  change (length (Gallery.units "... .")) with 5%nat. lia.
Qed.

Lemma truncated_name_is_one_over_the_limit_witness :
  Gallery.truncateFilename
    (Gallery.units "holiday-photo-from-the-beach.jpeg")
    Gallery.default_maxLength
  = Gallery.units "holiday-phot... .jpeg"
  /\ Z.of_nat (length
                 (Gallery.truncateFilename
                    (Gallery.units "holiday-photo-from-the-beach.jpeg")
                    Gallery.default_maxLength))
     = 21.
Proof.
  split; [reflexivity|].
  apply (truncated_name_is_one_over_the_limit
           (Gallery.units "holiday-photo-from-the-beach.jpeg")
           Gallery.default_maxLength);
    vm_compute; congruence.
Defined.

(** A name is measured in code units, not in bytes: a name of 15
    characters that takes 25 bytes is within the limit of 20 and kept
    whole. *)
Lemma short_cyrillic_name_is_kept :
  length Gallery.cyrillic_photo = 15%nat
  /\ Gallery.truncateFilename Gallery.cyrillic_photo Gallery.default_maxLength
     = Gallery.cyrillic_photo.
Proof. split; reflexivity. Qed.

(** X19. A file name longer than the limit whose extension does not leave
    room (at least [maxLength - 4] characters) loses all of its stem: it
    becomes ["... ."] followed by the extension.  A long name without any
    dot is its own extension, so it comes out whole behind that prefix,
    5 characters longer than it went in. *)
Theorem long_name_without_room_keeps_only_the_extension filename maxLength :
  maxLength < Z.of_nat (length filename) ->
  (maxLength - 4
   <= Z.of_nat (length (Gallery.pop (Gallery.split Gallery.dot filename))) ->
   Gallery.truncateFilename filename maxLength
   = Gallery.units "... ."
     ++ Gallery.pop (Gallery.split Gallery.dot filename))
  /\ (Gallery.mentions Gallery.dot filename = false ->
      Gallery.truncateFilename filename maxLength
      = Gallery.units "... ." ++ filename).
Proof.
  intros Hlong.
  assert (maxLength - 4
          <= Z.of_nat (length (Gallery.pop (Gallery.split Gallery.dot filename))) ->
          Gallery.truncateFilename filename maxLength
          = Gallery.units "... ."
            ++ Gallery.pop (Gallery.split Gallery.dot filename)) as Hgen.
  { intros Hext. unfold Gallery.truncateFilename.
    assert ((Z.of_nat (length filename) <=? maxLength) = false) as ->
      by (apply Z.leb_gt; lia).
    unfold Gallery.substring0.
    assert (Z.to_nat
              (maxLength
               - Z.of_nat (length
                             (Gallery.pop (Gallery.split Gallery.dot filename)))
               - 4) = 0%nat) as -> by lia.
    done. }
  split; [exact Hgen|]. intros Hdot.
  rewrite (split_without_separator _ _ Hdot) in Hgen. apply Hgen.
  cbn [Gallery.pop List.last]. lia.
Qed.

Lemma long_name_without_room_keeps_only_the_extension_witness :
  Gallery.truncateFilename
    (Gallery.units "averyveryverylongfilenamewithoutdot")
    Gallery.default_maxLength
  = Gallery.units "... .averyveryverylongfilenamewithoutdot".
Proof.
  destruct (long_name_without_room_keeps_only_the_extension
              (Gallery.units "averyveryverylongfilenamewithoutdot")
              Gallery.default_maxLength)
    as [_ H]; [vm_compute; reflexivity|].
  apply H. reflexivity.
Defined.

(** X20. A date that lies in the future is never shown as a date: it is
    labelled with a negative number of days, as in ["-1 days ago"]. *)
Theorem future_date_is_negative_days_ago parse now locale dateString date :
  parse dateString = Some date ->
  now < date ->
  (now - date) / 86400000 < 0
  /\ Gallery.formatDate parse now locale dateString
     = pretty ((now - date) / 86400000) +:+ " days ago".
Proof.
  intros Hparse Hfuture.
  assert ((now - date) / 86400000 < 0) as Hneg
    by (apply Z.div_lt_upper_bound; lia).
  split; [exact Hneg|]. unfold Gallery.formatDate. rewrite Hparse.
  change (1000 * 60 * 60 * 24) with 86400000.
  assert (((now - date) / 86400000 =? 0) = false) as ->
    by (apply Z.eqb_neq; lia).
  assert (((now - date) / 86400000 =? 1) = false) as ->
    by (apply Z.eqb_neq; lia).
  assert (((now - date) / 86400000 <? 7) = true) as ->
    by (apply Z.ltb_lt; lia).
  done.
Qed.

Lemma future_date_is_negative_days_ago_witness :
  Gallery.formatDate (fun _ => Some 1767960000001) 1767960000000
    (fun _ => "1/9/2026") "2026-01-09T12:00:00.001Z"
  = "-1 days ago".
Proof.
  destruct (future_date_is_negative_days_ago
              (fun _ => Some 1767960000001) 1767960000000
              (fun _ => "1/9/2026") "2026-01-09T12:00:00.001Z" 1767960000001)
    as [_ H]; [reflexivity | reflexivity |].
  rewrite H. vm_compute. reflexivity.
Defined.

(** X21. The labels of [formatDate] count periods of 24 hours, not
    calendar days: a date less than 24 hours back is [Today], one from 24
    to less than 48 hours back is [Yesterday], one from 2 to less than 7
    times 24 hours back is that number of days ago, an older one is
    printed by the locale, and so is an invalid date. *)
Theorem date_labels_are_24_hour_windows parse now locale dateString :
  let day := 86400000 in
  (parse dateString = None ->
   Gallery.formatDate parse now locale dateString = locale None)
  /\ forall date,
       parse dateString = Some date ->
       (0 <= now - date < day ->
        Gallery.formatDate parse now locale dateString = "Today")
       /\ (day <= now - date < 2 * day ->
           Gallery.formatDate parse now locale dateString = "Yesterday")
       /\ (2 * day <= now - date < 7 * day ->
           2 <= (now - date) / day < 7
           /\ Gallery.formatDate parse now locale dateString
              = pretty ((now - date) / day) +:+ " days ago")
       /\ (7 * day <= now - date ->
           Gallery.formatDate parse now locale dateString
           = locale (Some date)).
Proof.
  intros day. subst day. unfold Gallery.formatDate.
  change (1000 * 60 * 60 * 24) with 86400000.
  split; [by intros ->|]. intros date ->.
  split; [|split; [|split]].
  - intros H. by rewrite Z.div_small.
  - intros H.
    assert ((now - date) / 86400000 = 1) as ->
      by (symmetry; apply (Z.div_unique _ _ 1 (now - date - 86400000)); lia).
    done.
  - intros H.
    assert (2 <= (now - date) / 86400000 < 7) as Hd.
    { split; [apply Z.div_le_lower_bound | apply Z.div_lt_upper_bound]; lia. }
    split; [exact Hd|].
    assert (((now - date) / 86400000 =? 0) = false) as ->
      by (apply Z.eqb_neq; lia).
    assert (((now - date) / 86400000 =? 1) = false) as ->
      by (apply Z.eqb_neq; lia).
    assert (((now - date) / 86400000 <? 7) = true) as ->
      by (apply Z.ltb_lt; lia).
    done.
  - intros H.
    assert (7 <= (now - date) / 86400000) as Hd
      by (apply Z.div_le_lower_bound; lia).
    assert (((now - date) / 86400000 =? 0) = false) as ->
      by (apply Z.eqb_neq; lia).
    assert (((now - date) / 86400000 =? 1) = false) as ->
      by (apply Z.eqb_neq; lia).
    assert (((now - date) / 86400000 <? 7) = false) as ->
      by (apply Z.ltb_ge; lia).
    done.
Qed.

Lemma date_labels_are_24_hour_windows_witness :
  Gallery.formatDate (fun _ => Some 1767873600001) 1767960000000
    (fun _ => "1/8/2026") "2026-01-08T12:00:00.001Z"
  = "Today".
Proof.
  destruct (date_labels_are_24_hour_windows
              (fun _ => Some 1767873600001) 1767960000000
              (fun _ => "1/8/2026") "2026-01-08T12:00:00.001Z") as [_ H].
  destruct (H 1767873600001 eq_refl) as (Htoday & _).
  apply Htoday. lia.
Defined.

End Tiles.

(** * Properties of the theme *)

Section Themes.

Import Theme.

Lemma applyTheme_persists a :
  theme a <> "" ->
  persisted (snd (applyTheme a)) /\ theme (snd (applyTheme a)) = theme a
  /\ watching (snd (applyTheme a)) = watching a.
Proof.
  intros Hne. unfold applyTheme, persisted. cbn [themeColor].
  destruct (themeColor a); cbn [isIOS statusBar];
    [destruct (isIOS a); [destruct (statusBar a)|]|];
    cbn [snd storage theme watching]; by rewrite lookup_insert_eq.
Qed.

Lemma setupTheme_persists pref a : persisted (snd (setupTheme pref a)).
Proof.
  unfold setupTheme.
  set (a1 := match storage a !! KEY with
             | Some saved =>
                 if truthy (storage a !! KEY) then set_theme saved a
                 else if pref then set_theme "dark" a else set_theme "light" a
             | None => if pref then set_theme "dark" a else set_theme "light" a
             end).
  assert (theme a1 <> "") as Hne.
  { subst a1. destruct (storage a !! KEY) as [saved|] eqn:Hs.
    - unfold truthy. destruct (String.eqb saved "") eqn:E; cbn [negb].
      + by destruct pref.
      + by apply String.eqb_neq in E.
    - by destruct pref. }
  destruct (applyTheme_persists a1 Hne) as ([Hst Hth] & Ht & _).
  destruct (applyTheme a1) as [threw a2]. cbn [snd] in *.
  by destruct threw.
Qed.

Lemma toggleTheme_persists a : persisted (snd (toggleTheme a)).
Proof.
  unfold toggleTheme.
  set (a1 := set_theme (if String.eqb (theme a) "dark" then "light" else "dark") a).
  assert (theme a1 <> "") as Hne
    by (subst a1; cbn; by destruct (String.eqb (theme a) "dark")).
  destruct (applyTheme_persists a1 Hne) as ([Hst Hth] & Ht & _).
  destruct (applyTheme a1) as [threw a2]. cbn [snd] in *.
  by destruct threw.
Qed.

Lemma system_change_is_idle b a :
  persisted a -> on_system_change b a = (false, a).
Proof.
  intros [Hst Hne]. unfold on_system_change. rewrite Hst. unfold truthy.
  apply String.eqb_neq in Hne. rewrite Hne. by destruct (watching a).
Qed.

Lemma happenings_persist hs a :
  persisted a -> persisted (foldl happen a hs).
Proof.
  revert a. induction hs as [|h hs IH]; intros a Ha; [done|].
  cbn [foldl]. apply IH. destruct h as [|b]; cbn [happen].
  - apply toggleTheme_persists.
  - by rewrite system_change_is_idle.
Qed.

(** X22. Once [setupTheme] has run, the theme no longer follows the
    system: [applyTheme] always stores the theme, so the listener for
    changes of the system's colour scheme finds a stored theme and does
    nothing, after any sequence of toggles and system changes. *)
Theorem system_scheme_is_never_followed pref a hs matches :
  on_system_change matches (foldl happen (snd (setupTheme pref a)) hs)
  = (false, foldl happen (snd (setupTheme pref a)) hs).
Proof.
  apply system_change_is_idle, happenings_persist, setupTheme_persists.
Qed.

(** X23. The theme survives a reload of the page: whatever was toggled
    since [setupTheme] first ran, setting up a new app object over the
    same storage gives the theme the app had, whatever the system then
    prefers. *)
Theorem theme_survives_reload pref pref' a hs :
  theme (snd (setupTheme pref'
                (reload (foldl happen (snd (setupTheme pref a)) hs))))
  = theme (foldl happen (snd (setupTheme pref a)) hs).
Proof.
  destruct (happenings_persist hs _ (setupTheme_persists pref a))
    as [Hst Hne].
  set (s := foldl happen (snd (setupTheme pref a)) hs) in *.
  unfold setupTheme. cbn [storage reload]. rewrite Hst. unfold truthy.
  apply String.eqb_neq in Hne as Hne'. rewrite Hne'. cbn [negb].
  destruct (applyTheme_persists (set_theme (theme s) (reload s)) Hne)
    as (_ & Ht & _).
  destruct (applyTheme (set_theme (theme s) (reload s))) as [threw a2].
  cbn [snd] in *. by destruct threw.
Qed.

End Themes.

(** * Properties of the PIN pad *)

Section PinPad.

Import PinLock.

Lemma fill_next (p m : nat) :
  <[p := true]> (replicate p true ++ replicate (S m) false)
  = replicate (S p) true ++ replicate m false.
Proof.
  induction p as [|p IH]; [done|].
  change (true :: <[p := true]> (replicate p true ++ replicate (S m) false)
          = true :: (replicate (S p) true ++ replicate m false)).
  by rewrite IH.
Qed.

Lemma addDigit_types v d l b :
  maxLength l = 6 ->
  (String.length (pin l) < 6)%nat ->
  String.length d = 1%nat ->
  dots l !! String.length (pin l) = Some b ->
  addDigit v d l
  = (false,
     mkLock (pin l +:+ d) 6 (isSubmitting l)
       (repeat_string bullet (S (String.length (pin l))))
       (<[String.length (pin l) := true]> (dots l))
       (if (String.length (pin l) =? 5)%nat
        then S (submitTimers l) else submitTimers l)
       (if v then S (vibrations l) else vibrations l)).
Proof.
  intros Hmax Hlt Hd Hlook. unfold addDigit, updatePinDisplay.
  cbn [pin maxLength isSubmitting pinValue dots submitTimers vibrations].
  rewrite Hmax.
  assert ((6 <=? Z.of_nat (String.length (pin l))) = false) as ->
    by (apply Z.leb_gt; lia).
  assert (String.length (pin l +:+ d) = S (String.length (pin l))) as Hnew
    by (rewrite length_append, Hd; lia).
  rewrite Hnew.
  assert ((Z.of_nat (S (String.length (pin l))) =? 6)
          = (String.length (pin l) =? 5)%nat) as ->.
  { destruct (String.length (pin l) =? 5)%nat eqn:E.
    - apply Nat.eqb_eq in E. apply Z.eqb_eq. lia.
    - apply Nat.eqb_neq in E. apply Z.eqb_neq. lia. }
  destruct (String.length (pin l) =? 5)%nat;
    cbn [pin maxLength isSubmitting pinValue dots submitTimers vibrations];
    rewrite Hnew, Hlook; by destruct v.
Qed.

Lemma addDigit_well_formed v d l :
  well_formed l -> String.length d = 1%nat ->
  fst (addDigit v d l) = false
  /\ well_formed (snd (addDigit v d l))
  /\ length (dots (snd (addDigit v d l))) = length (dots l)
  /\ pin (snd (addDigit v d l))
     = (if (String.length (pin l) <? 6)%nat then pin l +:+ d else pin l)
  /\ submitTimers (snd (addDigit v d l))
     = (if (String.length (pin l) =? 5)%nat
        then S (submitTimers l) else submitTimers l).
Proof.
  intros (Hmax & Hlen & [Hval Hdots] & Hn) Hd.
  destruct (decide (String.length (pin l) = 6%nat)) as [Hsix|Hnot].
  - unfold addDigit. rewrite Hmax, Hsix. cbn [Z.leb Z.of_nat Z.compare
      Pos.of_succ_nat Pos.succ Pos.compare Pos.compare_cont fst snd
      Nat.ltb Nat.leb Nat.eqb].
    by repeat split.
  - assert (String.length (pin l) < 6)%nat as Hlt by lia.
    set (p := String.length (pin l)) in *.
    assert (exists m, (length (dots l) - p = S m)%nat) as [m Hm]
      by (exists (length (dots l) - p - 1)%nat; lia).
    assert (dots l !! p = Some false) as Hlook.
    { rewrite Hdots, Hm, lookup_app_r by (rewrite length_replicate; lia).
      by rewrite length_replicate, Nat.sub_diag. }
    assert (<[p := true]> (dots l)
            = replicate (S p) true
              ++ replicate (length (dots l) - S p) false) as Hfill.
    { rewrite Hdots at 1. rewrite Hm, fill_next. do 2 f_equal. lia. }
    rewrite (addDigit_types v d l false Hmax Hlt Hd Hlook). fold p.
    assert ((p <? 6)%nat = true) as -> by (apply Nat.ltb_lt; lia).
    cbn [fst snd pin maxLength dots submitTimers].
    assert (String.length (pin l +:+ d) = S p) as Hnew
      by (rewrite length_append, Hd; subst p; lia).
    split; [done|]. split; [|by rewrite length_insert].
    split; [done|]. split; [cbn [pin]; lia|].
    split; [|cbn [dots]; rewrite length_insert; lia].
    unfold shows_pin. cbn [pin pinValue dots].
    by rewrite Hnew, length_insert, Hfill.
Qed.

Lemma clearPin_well_formed l :
  well_formed l ->
  well_formed (clearPin l)
  /\ length (dots (clearPin l)) = length (dots l)
  /\ pin (clearPin l) = "".
Proof.
  intros (Hmax & Hlen & [Hval Hdots] & Hn). unfold clearPin.
  destruct (String.length (pin l) =? 0)%nat eqn:Hz.
  - apply Nat.eqb_eq in Hz. repeat split; try done.
    by destruct (pin l).
  - cbn [updatePinDisplay pin maxLength isSubmitting pinValue dots
         submitTimers vibrations].
    repeat split; cbn [pin maxLength dots pinValue String.length];
      try done; try lia; rewrite ?length_map; try done.
    cbn [replicate app repeat_string]. rewrite Nat.sub_0_r.
    clear. induction (dots l) as [|b bs IH]; [done|].
    cbn [map length replicate]. by rewrite IH.
Qed.

Lemma new_lock_well_formed n : (6 <= n)%nat -> well_formed (new_lock n).
Proof.
  intros Hn. unfold well_formed, new_lock, shows_pin.
  cbn [pin maxLength dots pinValue String.length].
  rewrite length_replicate, Nat.sub_0_r. repeat split; try done; lia.
Qed.

Lemma presses_well_formed v keys l :
  well_formed l -> forallb single keys = true ->
  well_formed (foldl (press v) l keys)
  /\ length (dots (foldl (press v) l keys)) = length (dots l).
Proof.
  revert l. induction keys as [|k keys IH]; intros l Hl Hkeys; [done|].
  cbn [forallb] in Hkeys. apply andb_true_iff in Hkeys as [Hk Hkeys].
  cbn [foldl].
  assert (well_formed (press v l k)
          /\ length (dots (press v l k)) = length (dots l)) as [Hw Hlen].
  { destruct k as [d|]; cbn [press].
    - apply Nat.eqb_eq in Hk.
      by destruct (addDigit_well_formed v d l Hl Hk) as (_ & Hw & Hlen & _).
    - by destruct (clearPin_well_formed l Hl) as (Hw & Hlen & _). }
  destruct (IH _ Hw Hkeys) as [Hw' Hlen']. split; [done|]. by rewrite Hlen'.
Qed.

(** X24. On a page with at least six dots, whatever digits (of one
    character) and clears are pressed, the PIN never has more than six
    characters, the page shows as many bullets and filled dots as the
    PIN has characters, and the next digit does not throw. *)
Theorem pin_pad_shows_at_most_six v keys n d :
  (6 <= n)%nat ->
  forallb single keys = true ->
  String.length d = 1%nat ->
  let l := foldl (press v) (new_lock n) keys in
  (String.length (pin l) <= 6)%nat
  /\ shows_pin l
  /\ length (dots l) = n
  /\ fst (addDigit v d l) = false.
Proof.
  intros Hn Hkeys Hd l. subst l.
  destruct (presses_well_formed v keys (new_lock n)
              (new_lock_well_formed n Hn) Hkeys) as [Hw Hlen].
  destruct (addDigit_well_formed v d _ Hw Hd) as (Hthrow & _).
  destruct Hw as (_ & Hsix & Hshow & _).
  repeat split; try done; try apply Hshow.
  rewrite Hlen. unfold new_lock. cbn [dots]. apply length_replicate.
Qed.

Lemma pin_pad_shows_at_most_six_witness :
  (String.length
     (pin (foldl (press true) (new_lock 6)
             [Digit "1"; Digit "2"; Clear; Digit "3"; Digit "4"; Digit "5";
              Digit "6"; Digit "7"; Digit "8"; Digit "9"; Digit "0"]))
   <= 6)%nat.
Proof.
  destruct (pin_pad_shows_at_most_six true
              [Digit "1"; Digit "2"; Clear; Digit "3"; Digit "4"; Digit "5";
               Digit "6"; Digit "7"; Digit "8"; Digit "9"; Digit "0"] 6 "1")
    as (H & _); [lia | reflexivity | reflexivity |].
  exact H.
Defined.

Lemma since_clear_digit keys d :
  since_clear (keys ++ [Digit d]) = since_clear keys ++ [d].
Proof.
  unfold since_clear. rewrite reverse_snoc. cbn [trailing_digits].
  by rewrite reverse_cons.
Qed.

Lemma since_clear_clear keys : since_clear (keys ++ [Clear]) = [].
Proof. unfold since_clear. by rewrite reverse_snoc. Qed.

Lemma append_empty s : s +:+ "" = s.
Proof.
  induction s as [|c s IH]; [done|].
  change (String c (s +:+ "") = String c s). by rewrite IH.
Qed.

Lemma join_snoc ss d : join (ss ++ [d]) = join ss +:+ d.
Proof.
  induction ss as [|s ss IH].
  - cbn [app join foldr]. by rewrite append_empty.
  - cbn [app]. change (s +:+ join (ss ++ [d]) = (s +:+ join ss) +:+ d).
    by rewrite IH, append_assoc.
Qed.

(** What the pad holds after any keys: the first six of the digits since
    the last clear. *)
Lemma pin_after_keys v keys n :
  (6 <= n)%nat ->
  forallb single keys = true ->
  pin (foldl (press v) (new_lock n) keys) = join (take 6 (since_clear keys))
  /\ String.length (pin (foldl (press v) (new_lock n) keys))
     = length (take 6 (since_clear keys)).
Proof.
  intros Hn. induction keys as [|k keys IH] using rev_ind; intros Hkeys;
    [done|].
  rewrite forallb_app in Hkeys. apply andb_true_iff in Hkeys as [Hkeys Hk].
  cbn [forallb] in Hk. rewrite andb_true_r in Hk.
  destruct (IH Hkeys) as [Hpin Hlen].
  destruct (presses_well_formed v keys (new_lock n)
              (new_lock_well_formed n Hn) Hkeys) as [Hw _].
  rewrite foldl_snoc. set (l := foldl (press v) (new_lock n) keys) in *.
  destruct k as [d|]; cbn [press].
  - apply Nat.eqb_eq in Hk.
    destruct (addDigit_well_formed v d l Hw Hk) as (_ & _ & _ & Hp & _).
    rewrite Hp, since_clear_digit, Hlen. clear Hp.
    set (sc := since_clear keys) in *. rewrite length_take in *.
    destruct (decide (length sc < 6)%nat) as [Hlt|Hge].
    + assert ((6 `min` length sc <? 6)%nat = true) as ->
        by (apply Nat.ltb_lt; lia).
      rewrite (take_ge sc) in * by lia.
      rewrite take_ge by (rewrite length_app; cbn; lia).
      split; [by rewrite join_snoc, Hpin|].
      rewrite length_append, Hk, Hlen, length_app. cbn [length]. lia.
    + assert ((6 `min` length sc <? 6)%nat = false) as ->
        by (apply Nat.ltb_ge; lia).
      rewrite take_app_le by lia. by rewrite length_take.
  - destruct (clearPin_well_formed l Hw) as (_ & _ & Hp).
    by rewrite Hp, since_clear_clear.
Qed.

(** X25. On a page with at least six dots, the PIN held after any keys
    is made of the digits pressed since the last clear, and of the first
    six of them only: a seventh digit is dropped, it does not replace or
    shift the others. *)
Theorem pin_is_first_six_digits_since_clear v keys n :
  (6 <= n)%nat ->
  forallb single keys = true ->
  pin (foldl (press v) (new_lock n) keys) = join (take 6 (since_clear keys)).
Proof.
  intros Hn Hkeys. by destruct (pin_after_keys v keys n Hn Hkeys).
Qed.

Lemma pin_is_first_six_digits_since_clear_witness :
  pin (foldl (press false) (new_lock 6)
         [Digit "9"; Clear; Digit "1"; Digit "2"; Digit "3"; Digit "4";
          Digit "5"; Digit "6"; Digit "7"])
  = "123456".
Proof.
  rewrite (pin_is_first_six_digits_since_clear false
             [Digit "9"; Clear; Digit "1"; Digit "2"; Digit "3"; Digit "4";
              Digit "5"; Digit "6"; Digit "7"] 6);
    [reflexivity | lia | reflexivity].
Defined.

(** X26. On a page with at least six dots, a key schedules the automatic
    submit exactly when it is the sixth digit since the last clear: that
    digit schedules one submit, any other digit and a clear schedule
    none.  So six digits are submitted once however many digits follow
    them, and again after a clear and six more digits. *)
Theorem submit_is_scheduled_by_the_sixth_digit v keys k n :
  (6 <= n)%nat ->
  forallb single (keys ++ [k]) = true ->
  submitTimers (foldl (press v) (new_lock n) (keys ++ [k]))
  = (submitTimers (foldl (press v) (new_lock n) keys) + schedules keys k)%nat.
Proof.
  intros Hn Hall. rewrite forallb_app in Hall.
  apply andb_true_iff in Hall as [Hkeys Hk].
  cbn [forallb] in Hk. rewrite andb_true_r in Hk.
  destruct (presses_well_formed v keys (new_lock n)
              (new_lock_well_formed n Hn) Hkeys) as [Hw _].
  destruct (pin_after_keys v keys n Hn Hkeys) as [_ Hlen].
  rewrite foldl_snoc. set (l := foldl (press v) (new_lock n) keys) in *.
  destruct k as [d|]; cbn [press schedules].
  - apply Nat.eqb_eq in Hk.
    destruct (addDigit_well_formed v d l Hw Hk) as (_ & _ & _ & _ & ->).
    rewrite Hlen, length_take.
    destruct (decide (length (since_clear keys) = 5%nat)) as [->|Hne];
      [cbn; lia|].
    assert ((length (since_clear keys) =? 5)%nat = false) as ->
      by (by apply Nat.eqb_neq).
    assert ((6 `min` length (since_clear keys) =? 5)%nat = false) as ->
      by (apply Nat.eqb_neq; lia).
    lia.
  - unfold clearPin. destruct (String.length (pin l) =? 0)%nat; cbn; lia.
Qed.

Lemma submit_is_scheduled_by_the_sixth_digit_witness :
  submitTimers
    (foldl (press true) (new_lock 6)
       ([Digit "1"; Digit "2"; Digit "3"; Digit "4"; Digit "5"; Digit "6";
         Digit "7"; Clear;
         Digit "1"; Digit "2"; Digit "3"; Digit "4"; Digit "5"]
        ++ [Digit "6"]))
  = 2%nat.
Proof.
  rewrite (submit_is_scheduled_by_the_sixth_digit true
             [Digit "1"; Digit "2"; Digit "3"; Digit "4"; Digit "5";
              Digit "6"; Digit "7"; Clear;
              Digit "1"; Digit "2"; Digit "3"; Digit "4"; Digit "5"]
             (Digit "6") 6);
    [reflexivity | lia | reflexivity].
Defined.

(** The clear that a failed attempt schedules does to a pad what the
    clear button does; [submitPin] ends with a call of [clearPin] itself.
    Both are a [Clear] among the keys. *)
Lemma failed_attempt_timeout_is_a_clear l :
  well_formed l -> failed_attempt_timeout l = clearPin l.
Proof.
  intros (_ & _ & [_ Hdots] & _). unfold failed_attempt_timeout, clearPin.
  cbn [pin maxLength isSubmitting pinValue dots submitTimers vibrations
       updatePinDisplay].
  destruct (String.length (pin l) =? 0)%nat eqn:Hz.
  - apply Nat.eqb_eq in Hz. rewrite Hz in Hdots.
    cbn [replicate app] in Hdots. rewrite Nat.sub_0_r in Hdots.
    assert (map (fun _ : bool => false) (dots l) = dots l) as ->.
    { rewrite Hdots at 2. clear. induction (dots l) as [|b bs IH]; [done|].
      cbn [map length replicate]. by rewrite IH. }
    by destruct l.
  - by rewrite map_map.
Qed.

End PinPad.
